(** * rb26_survey: the coordinate and entity-positioning core

    A shallow embedding of the numeric core of the survey editors:
    - [Map1]: the two-point calibration mapper [GeoMapper] of map_1.py;
    - [Map2]: [clamp], the metres/degrees conversions and the
      base + offset = final bookkeeping of map_2.py;
    - [Map4]: the conversions and the forward geodesic of map_4.py;
    - [Map6]: the fixed-origin conversions and [calculate_projection] of
      map_6.py.

    Python's [float] is IEEE-754 binary64.  The functions are written once,
    over an interface [Arith] of the arithmetic the source uses, and read at
    two instances:
    - [binary64]: Rocq's primitive floats, which are binary64 with
      round-to-nearest-even, so [+ - * /] and the comparisons are bit for
      bit those of CPython;
    - [exact]: the real numbers, arithmetic without rounding.
    The [math] module (cos, sin, asin, atan2, radians, degrees, fmod) is a
    second interface [Libm]; it is instantiated with the mathematical
    functions on the reals only.

    Python exceptions are values of [result].  Qt (scene, widgets, signal
    delivery) is outside the model: [setPos] is recorded as the item's pixel
    position and nothing more.

    The modules [Map1UI], [Map2UI], [Map4UI] and [Map6UI] embed the state
    the four windows keep in Python (their lists of points, items and
    records, the calibration, the flags) and the methods that change it,
    with the documents their JSON files hold.  An operation of the
    operator is a value of the module's type [op]; [run] applies a list of
    them.  Exceptions of containers (KeyError, IndexError) are values of
    [outcome]. *)

From Stdlib Require Import ZArith Bool String DecimalString List Lia.
From Stdlib Require Import Reals Lra Psatz.
From Stdlib Require Import Floats.
Import ListNotations.

Set Warnings "-inexact-float".

(* ================================================================== *)
(** ** Python results: a value or a raised exception *)

Inductive exn : Type :=
| ZeroDivisionError
| ValueError
| OverflowError
| RuntimeError (msg : string).

Inductive result (A : Type) : Type :=
| Ok (a : A)
| Raise (e : exn).

Arguments Ok {A} a.
Arguments Raise {A} e.

Definition bind {A B : Type} (r : result A) (k : A -> result B) : result B :=
  match r with
  | Ok a => k a
  | Raise e => Raise e
  end.

Definition rmap {A B : Type} (f : A -> B) (r : result A) : result B :=
  bind r (fun a => Ok (f a)).

Declare Scope py_scope.
Delimit Scope py_scope with py.
Notation "x <- r ;; k" := (bind r (fun x => k))
  (at level 61, r at next level, right associativity) : py_scope.
Notation "' p <- r ;; k" := (bind r (fun p => k))
  (at level 61, p pattern, r at next level, right associativity) : py_scope.
Open Scope py_scope.

(* ================================================================== *)
(** ** The arithmetic the source uses *)

(** [fquo] is the quotient of a division whose divisor is not zero; Python
    raises before it divides by zero, see [truediv].  [of_int] is the
    conversion of an [int] operand or of an integral literal; [round_int]
    is the builtin [round] with one argument, which returns an [int] and
    rounds halves to the even neighbour. *)
Class Arith (F : Type) : Type := {
  fadd : F -> F -> F;
  fsub : F -> F -> F;
  fmul : F -> F -> F;
  fquo : F -> F -> F;
  fneg : F -> F;
  feqb : F -> F -> bool;
  fltb : F -> F -> bool;
  of_int : Z -> F;
  round_int : F -> result Z
}.

Declare Scope arith_scope.
Delimit Scope arith_scope with ar.
Infix "+!" := fadd (at level 50, left associativity) : arith_scope.
Infix "-!" := fsub (at level 50, left associativity) : arith_scope.
Infix "*!" := fmul (at level 40, left associativity) : arith_scope.
Infix "==!" := feqb (at level 70, no associativity) : arith_scope.
Infix "<!" := fltb (at level 70, no associativity) : arith_scope.
Open Scope arith_scope.

Section Operators.
Context {F : Type} `{Arith F}.

(** [x != y] *)
Definition fneb (x y : F) : bool := negb (x ==! y).

(** [x / y] on floats: ZeroDivisionError when [y == 0]. *)
Definition truediv (x y : F) : result F :=
  if y ==! of_int 0 then Raise ZeroDivisionError else Ok (fquo x y).

(** The builtins [min(a, b)] and [max(a, b)]: the first argument is kept
    unless the second is strictly smaller (resp. greater). *)
Definition pymin (a b : F) : F := if b <! a then b else a.
Definition pymax (a b : F) : F := if a <! b then b else a.
End Operators.

Infix "/!" := truediv (at level 40, left associativity) : arith_scope.

(* ------------------------------------------------------------------ *)
(** *** Instance [binary64]: primitive floats *)

(** Nearest integer of [m * 2^e], halves to the even neighbour. *)
Definition round_half_even_scaled (m : Z) (e : Z) : Z :=
  match e with
  | Zneg p =>
      let d := Z.pow_pos 2 p in
      let q := (m / d)%Z in
      let r := (m mod d)%Z in
      match (2 * r ?= d)%Z with
      | Lt => q
      | Gt => (q + 1)%Z
      | Eq => if Z.even q then q else (q + 1)%Z
      end
  | _ => (m * 2 ^ e)%Z
  end.

Definition float_round_int (x : float) : result Z :=
  match Prim2SF x with
  | S754_zero _ => Ok 0%Z
  | S754_infinity _ => Raise OverflowError
  | S754_nan => Raise ValueError
  | S754_finite s m e => Ok (cond_Zopp s (round_half_even_scaled (Zpos m) e))
  end.

(** The nearest binary64 of an integer (exact below 2^53). *)
Definition float_of_int (z : Z) : float :=
  SF2Prim (binary_normalize prec emax z 0 false).

#[export] Instance binary64 : Arith float := {
  fadd := PrimFloat.add;
  fsub := PrimFloat.sub;
  fmul := PrimFloat.mul;
  fquo := PrimFloat.div;
  fneg := PrimFloat.opp;
  feqb := PrimFloat.eqb;
  fltb := PrimFloat.ltb;
  of_int := float_of_int;
  round_int := float_round_int
}.

(* ------------------------------------------------------------------ *)
(** *** Instance [exact]: the real numbers *)

Definition Reqb (x y : R) : bool := if Req_dec_T x y then true else false.
Definition Rltb (x y : R) : bool := if Rlt_dec x y then true else false.

(** Largest integer below or equal to [x]. *)
Definition Rfloor (x : R) : Z := (up x - 1)%Z.

Definition Rround_half_even (x : R) : Z :=
  let n := Rfloor x in
  let d := (x - IZR n)%R in
  if Rlt_dec d (1 / 2) then n
  else if Rlt_dec (1 / 2) d then (n + 1)%Z
  else if Z.even n then n else (n + 1)%Z.

#[export] Instance exact : Arith R := {
  fadd := Rplus;
  fsub := Rminus;
  fmul := Rmult;
  fquo := Rdiv;
  fneg := Ropp;
  feqb := Reqb;
  fltb := Rltb;
  of_int := IZR;
  round_int := fun x => Ok (Rround_half_even x)
}.

(* ================================================================== *)
(** ** The [math] module *)

(** [m_asin] is the value of [math.asin] inside its domain; the domain check
    is in [math_asin].  [m_fmod] is C's [fmod], on which CPython builds the
    float [%].  The arguments are finite numbers: the ValueError of
    [math.cos] and [math.sin] at an infinity is not part of the model. *)
Class Libm (F : Type) `{Arith F} : Type := {
  m_radians : F -> F;
  m_degrees : F -> F;
  m_cos : F -> F;
  m_sin : F -> F;
  m_asin : F -> F;
  m_atan2 : F -> F -> F;
  m_fmod : F -> F -> F
}.

Section MathModule.
Context {F : Type} `{Libm F}.

(** [math.asin(x)]: ValueError ("math domain error") outside [-1, 1]. *)
Definition math_asin (x : F) : result F :=
  if (x <! of_int (-1)) || (of_int 1 <! x) then Raise ValueError
  else Ok (m_asin x).

(** [x % y] on floats (CPython's float_rem): the remainder takes the sign
    of the divisor. *)
Definition pymod (x y : F) : result F :=
  if y ==! of_int 0 then Raise ZeroDivisionError
  else
    let m := m_fmod x y in
    if fneb m (of_int 0)
    then if xorb (y <! of_int 0) (m <! of_int 0) then Ok (m +! y) else Ok m
    else Ok (of_int 0).
End MathModule.

(** A decimal literal [n / 10^k]: the quotient of two exactly representable
    integers is, in binary64, the nearest double of the decimal, which is
    how CPython reads the literal. *)
Definition decimal {F : Type} `{Arith F} (n : Z) (k : positive) : F :=
  fquo (of_int n) (of_int (Z.pow_pos 10 k)).

(* ------------------------------------------------------------------ *)
(** *** Instance on the reals *)

(** Quotient of [x / y] truncated towards zero, as in C's [fmod]. *)
Definition Rtrunc (x : R) : Z :=
  if Rle_dec 0 x then Rfloor x else (- Rfloor (- x))%Z.

Definition Rfmod (x y : R) : R := (x - y * IZR (Rtrunc (x / y)))%R.

(** [math.atan2(y, x)] without signed zeros: the angle of the point
    [(x, y)] in (-PI, PI], and [0] at the origin. *)
Definition Ratan2 (y x : R) : R :=
  if Rlt_dec 0 x then atan (y / x)
  else if Rlt_dec x 0 then
         if Rle_dec 0 y then (atan (y / x) + PI)%R else (atan (y / x) - PI)%R
       else if Rlt_dec 0 y then (PI / 2)%R
            else if Rlt_dec y 0 then (- (PI / 2))%R
                 else 0%R.

#[export] Instance exact_libm : Libm R := {
  m_radians := fun x => (x * (PI / 180))%R;
  m_degrees := fun x => (x * (180 / PI))%R;
  m_cos := cos;
  m_sin := sin;
  m_asin := asin;
  m_atan2 := Ratan2;
  m_fmod := Rfmod
}.

(* ================================================================== *)
(** ** map_1.py: two-point calibration *)

Module Map1.
Section Defs.
Context {F : Type} `{Arith F}.

Record CalPoint : Type := mkCalPoint {
  px : F;
  py : F;
  lat : F;
  lon : F
}.

Record GeoMapper : Type := mkGeoMapper {
  p1 : option CalPoint;
  p2 : option CalPoint
}.

(** [GeoMapper.__init__] *)
Definition init : GeoMapper := mkGeoMapper None None.

Definition is_ready (self : GeoMapper) : bool :=
  match p1 self, p2 self with
  | Some a, Some b =>
      fneb (px b) (px a) && fneb (py b) (py a) &&
      fneb (lon b) (lon a) && fneb (lat b) (lat a)
  | _, _ => false
  end.

(** [set_points] has no failure path: it assigns and returns. *)
Definition set_points (self : GeoMapper) (a b : CalPoint) : result GeoMapper :=
  Ok (mkGeoMapper (Some a) (Some b)).

Definition not_calibrated : exn := RuntimeError "GeoMapper not calibrated.".

(** Returns [(lat, lon)].  The last branch of the [match] is never taken:
    [is_ready] has seen both points. *)
Definition px_to_ll (self : GeoMapper) (x y : F) : result (F * F) :=
  if negb (is_ready self) then Raise not_calibrated
  else
    match p1 self, p2 self with
    | Some a, Some b =>
        qx <- ((x -! px a) *! (lon b -! lon a)) /! (px b -! px a) ;;
        let lon' := lon a +! qx in
        qy <- ((y -! py a) *! (lat b -! lat a)) /! (py b -! py a) ;;
        let lat' := lat a +! qy in
        Ok (lat', lon')
    | _, _ => Raise not_calibrated
    end.

(** Returns [(px, py)]. *)
Definition ll_to_px (self : GeoMapper) (la lo : F) : result (F * F) :=
  if negb (is_ready self) then Raise not_calibrated
  else
    match p1 self, p2 self with
    | Some a, Some b =>
        qx <- ((lo -! lon a) *! (px b -! px a)) /! (lon b -! lon a) ;;
        let px' := px a +! qx in
        qy <- ((la -! lat a) *! (py b -! py a)) /! (lat b -! lat a) ;;
        let py' := py a +! qy in
        Ok (px', py')
    | _, _ => Raise not_calibrated
    end.

(** What [MainWindow.pick_calibration_pixel] does once the operator has
    entered the latitude and longitude of point [which]: store the point,
    and when both are present call [set_points] and look at [is_ready]. *)
Inductive pick_status : Type :=
| P1_set
| P2_set
| Calibrated
| Calibration_invalid.

Definition pick_calibration_pixel (self : GeoMapper) (which : Z) (cp : CalPoint)
  : result (GeoMapper * pick_status) :=
  let '(g, st) :=
    if (which =? 1)%Z then (mkGeoMapper (Some cp) (p2 self), P1_set)
    else (mkGeoMapper (p1 self) (Some cp), P2_set) in
  match p1 g, p2 g with
  | Some a, Some b =>
      g' <- set_points g a b ;;
      if is_ready g' then Ok (g', Calibrated) else Ok (g', Calibration_invalid)
  | _, _ => Ok (g, st)
  end.
End Defs.
Arguments CalPoint F : clear implicits.
Arguments GeoMapper F : clear implicits.
End Map1.

(* ================================================================== *)
(** ** map_2.py: the centred grid editor *)

Module Map2.
Section Defs.
Context {F : Type} `{Libm F}.

(** Grid configuration.  [W_PX = int(GRID_SIZE_M * PX_PER_M)] is the
    integer 800. *)
Definition GRID_SIZE_M : F := of_int 100.
Definition HALF_M : F := fquo GRID_SIZE_M (of_int 2).
Definition CELL_SIZE_M : F := of_int 5.
Definition PX_PER_M : F := of_int 8.
Definition W_PX : Z := 800.
Definition H_PX : Z := 800.

Definition clamp (v lo hi : F) : F := pymax lo (pymin hi v).

Definition meters_per_deg (origin_lat : F) : F * F :=
  let m_per_deg_lat := of_int 111320 in
  let m_per_deg_lon := of_int 111320 *! m_cos (m_radians origin_lat) in
  (m_per_deg_lat, m_per_deg_lon).

(** Returns [(lat, lon)]. *)
Definition meters_to_latlon (origin_lat origin_lon east_m north_m : F)
  : result (F * F) :=
  let '(m_per_deg_lat, m_per_deg_lon) := meters_per_deg origin_lat in
  dlat <- north_m /! m_per_deg_lat ;;
  dlon <- (if fneb m_per_deg_lon (of_int 0)
           then east_m /! m_per_deg_lon
           else Ok (of_int 0)) ;;
  Ok (origin_lat +! dlat, origin_lon +! dlon).

(** Returns [(east_m, north_m)]. *)
Definition latlon_to_meters (origin_lat origin_lon la lo : F) : F * F :=
  let '(m_per_deg_lat, m_per_deg_lon) := meters_per_deg origin_lat in
  let north_m := (la -! origin_lat) *! m_per_deg_lat in
  let east_m := (lo -! origin_lon) *! m_per_deg_lon in
  (east_m, north_m).

Inductive Kind : Type := waypoint | mission.

(** The fields of [DraggableBase], and the item's scene position in
    pixels ([setPos]). *)
Record DraggableBase : Type := mkItem {
  kind : Kind;
  item_id_1based : Z;
  name : string;
  base_x : F;
  base_y : F;
  off_x : F;
  off_y : F;
  pos : F * F
}.

Definition with_base (item : DraggableBase) (bx by_ : F) : DraggableBase :=
  mkItem (kind item) (item_id_1based item) (name item)
         bx by_ (off_x item) (off_y item) (pos item).

Definition with_off (item : DraggableBase) (ox oy : F) : DraggableBase :=
  mkItem (kind item) (item_id_1based item) (name item)
         (base_x item) (base_y item) ox oy (pos item).

Definition setPos (item : DraggableBase) (p : F * F) : DraggableBase :=
  mkItem (kind item) (item_id_1based item) (name item)
         (base_x item) (base_y item) (off_x item) (off_y item) p.

Definition px_to_meters (x_px y_px : F) : F * F :=
  let x := fquo (x_px -! fquo (of_int W_PX) (of_int 2)) PX_PER_M in
  let y := fquo (fquo (of_int H_PX) (of_int 2) -! y_px) PX_PER_M in
  (x, y).

Definition meters_to_px (x y : F) : F * F :=
  let x_px := fquo (of_int W_PX) (of_int 2) +! (x *! PX_PER_M) in
  let y_px := fquo (of_int H_PX) (of_int 2) -! (y *! PX_PER_M) in
  (x_px, y_px).

(** The local function [snap] of [snap_xy]:
    [round(v / CELL_SIZE_M) * CELL_SIZE_M]. *)
Definition snap (v : F) : result F :=
  q <- v /! CELL_SIZE_M ;;
  n <- round_int q ;;
  Ok (of_int n *! CELL_SIZE_M).

(** [snap_cb] is the state of the "Snap to 5m grid" check box. *)
Definition snap_xy (snap_cb : bool) (x y : F) : result (F * F) :=
  if negb snap_cb then Ok (x, y)
  else sx <- snap x ;; sy <- snap y ;; Ok (sx, sy).

Definition clamp_xy (x y : F) : F * F :=
  (clamp x (fneg HALF_M) HALF_M, clamp y (fneg HALF_M) HALF_M).

Definition final_from_item (item : DraggableBase) : F * F :=
  (base_x item +! off_x item, base_y item +! off_y item).

(** The clamped and snapped final position [_apply_item_to_scene] computes
    from the item, before it stores anything. *)
Definition scene_final (snap_cb : bool) (item : DraggableBase) : result (F * F) :=
  let '(final_x, final_y) := final_from_item item in
  let '(final_x, final_y) := clamp_xy final_x final_y in
  snap_xy snap_cb final_x final_y.

Definition _apply_item_to_scene (snap_cb : bool) (item : DraggableBase)
  : result DraggableBase :=
  '(final_x, final_y) <- scene_final snap_cb item ;;
  let item := with_base item (final_x -! off_x item) (final_y -! off_y item) in
  Ok (setPos item (meters_to_px final_x final_y)).

Definition set_item_final (snap_cb : bool) (item : DraggableBase)
  (final_x final_y : F) : result DraggableBase :=
  let item := with_base item (final_x -! off_x item) (final_y -! off_y item) in
  _apply_item_to_scene snap_cb item.

Definition set_item_offset (snap_cb : bool) (item : DraggableBase)
  (ox oy : F) : result DraggableBase :=
  let item := with_off item ox oy in
  _apply_item_to_scene snap_cb item.

(** [_add_waypoint] and [_add_mission] build the item and append it to
    their list, whose length gives the id: base = final, offset = 0. *)
Definition _add_waypoint (snap_cb : bool) (waypoints : list DraggableBase)
  (final_x final_y : F) (nm : string) : result DraggableBase :=
  let '(final_x, final_y) := clamp_xy final_x final_y in
  '(final_x, final_y) <- snap_xy snap_cb final_x final_y ;;
  let item_id_1based := (Z.of_nat (length waypoints) + 1)%Z in
  Ok (mkItem waypoint item_id_1based nm final_x final_y (of_int 0) (of_int 0)
             (meters_to_px final_x final_y)).

Definition _add_mission (snap_cb : bool) (missions : list DraggableBase)
  (final_x final_y : F) (nm : string) : result DraggableBase :=
  let '(final_x, final_y) := clamp_xy final_x final_y in
  '(final_x, final_y) <- snap_xy snap_cb final_x final_y ;;
  let item_id_1based := (Z.of_nat (length missions) + 1)%Z in
  Ok (mkItem mission item_id_1based nm final_x final_y (of_int 0) (of_int 0)
             (meters_to_px final_x final_y)).

(** [add_waypoint_center]: the name is "wp" followed by the id. *)
Definition add_waypoint_center (snap_cb : bool) (waypoints : list DraggableBase)
  : result DraggableBase :=
  _add_waypoint snap_cb waypoints (of_int 0) (of_int 0)
    ("wp" ++ NilZero.string_of_uint (Nat.to_uint (length waypoints + 1))).


(** One edit of an item; the check box is read at each call. *)
Inductive call : Type :=
| SetFinal (snap_cb : bool) (final_x final_y : F)
| SetOffset (snap_cb : bool) (ox oy : F).

Definition step (item : DraggableBase) (c : call) : result DraggableBase :=
  match c with
  | SetFinal s x y => set_item_final s item x y
  | SetOffset s x y => set_item_offset s item x y
  end.




Fixpoint run (item : DraggableBase) (cs : list call) : result DraggableBase :=
  match cs with
  | [] => Ok item
  | c :: cs' => item' <- step item c ;; run item' cs'
  end.
End Defs.
Arguments DraggableBase F : clear implicits.
Arguments call F : clear implicits.
End Map2.

(* ================================================================== *)
(** ** map_4.py: the pre-water surveyor *)

Module Map4.
Section Defs.
Context {F : Type} `{Libm F}.

Definition R_EARTH : F := of_int 6371000.

Definition get_meters_per_deg (la : F) : F * F :=
  let m_lat := of_int 111320 in
  let m_lon := of_int 111320 *! m_cos (m_radians la) in
  (m_lat, m_lon).

Definition latlon_to_local_xy (origin_lat origin_lon target_lat target_lon : F)
  : F * F :=
  let '(m_lat, m_lon) := get_meters_per_deg origin_lat in
  let dy := (target_lat -! origin_lat) *! m_lat in
  let dx := (target_lon -! origin_lon) *! m_lon in
  (dx, dy).

Definition local_xy_to_latlon (origin_lat origin_lon x_m y_m : F)
  : result (F * F) :=
  let '(m_lat, m_lon) := get_meters_per_deg origin_lat in
  qy <- y_m /! m_lat ;;
  let t_lat := origin_lat +! qy in
  qx <- x_m /! m_lon ;;
  let t_lon := origin_lon +! qx in
  Ok (t_lat, t_lon).

(** Returns [(lat, lon)] in degrees. *)
Definition calculate_forward_geodesic (lat1 lon1 bearing distance : F)
  : result (F * F) :=
  let phi1 := m_radians lat1 in
  let lam1 := m_radians lon1 in
  let theta := m_radians bearing in
  delta <- distance /! R_EARTH ;;
  phi2 <- math_asin (m_sin phi1 *! m_cos delta
                     +! m_cos phi1 *! m_sin delta *! m_cos theta) ;;
  let lam2 := lam1 +! m_atan2 (m_sin theta *! m_sin delta *! m_cos phi1)
                              (m_cos delta -! m_sin phi1 *! m_sin phi2) in
  Ok (m_degrees phi2, m_degrees lam2).
End Defs.
End Map4.

(* ================================================================== *)
(** ** map_6.py: the fixed-origin surveyor and planner *)

Module Map6.
Section Defs.
Context {F : Type} `{Libm F}.

Definition ORIGIN_LAT : F := decimal 27375634 6.
Definition ORIGIN_LON : F := decimal (-82452487) 6.
Definition R_EARTH : F := of_int 6371000.

(** Returns [(east_m, north_m)]. *)
Definition latlon_to_meters (la lo : F) : F * F :=
  let m_lat := of_int 111320 in
  let m_lon := of_int 111320 *! m_cos (m_radians ORIGIN_LAT) in
  ((lo -! ORIGIN_LON) *! m_lon, (la -! ORIGIN_LAT) *! m_lat).

(** Returns [(lat, lon)]. *)
Definition meters_to_latlon (east_m north_m : F) : result (F * F) :=
  let m_lat := of_int 111320 in
  let m_lon := of_int 111320 *! m_cos (m_radians ORIGIN_LAT) in
  qn <- north_m /! m_lat ;;
  qe <- east_m /! m_lon ;;
  Ok (ORIGIN_LAT +! qn, ORIGIN_LON +! qe).

Definition calculate_projection (user_lat user_lon west_brg dist : F)
  : result (F * F) :=
  true_brg <- pymod (of_int 270 +! west_brg) (of_int 360) ;;
  let phi1 := m_radians user_lat in
  let lam1 := m_radians user_lon in
  let theta := m_radians true_brg in
  delta <- dist /! R_EARTH ;;
  phi2 <- math_asin (m_sin phi1 *! m_cos delta
                     +! m_cos phi1 *! m_sin delta *! m_cos theta) ;;
  let lam2 := lam1 +! m_atan2 (m_sin theta *! m_sin delta *! m_cos phi1)
                              (m_cos delta -! m_sin phi1 *! m_sin phi2) in
  Ok (m_degrees phi2, m_degrees lam2).
End Defs.
End Map6.

(* ================================================================== *)
(** ** Containers: exceptions, item assignment, [str] *)

(** The [KeyError] of a missing dict key and the [IndexError] of a list
    index out of range, beside the exceptions of the arithmetic. *)
Inductive pyexn : Type :=
| KeyError (key : string)
| IndexError
| Arithmetic (e : exn).

Inductive outcome (A : Type) : Type :=
| Done (a : A)
| Failed (e : pyexn).

Arguments Done {A} a.
Arguments Failed {A} e.

Definition lift {A : Type} (r : result A) : outcome A :=
  match r with
  | Ok a => Done a
  | Raise e => Failed (Arithmetic e)
  end.

Definition obind {A B : Type} (r : outcome A) (k : A -> outcome B) : outcome B :=
  match r with
  | Done a => k a
  | Failed e => Failed e
  end.

Notation "x <~ r ;; k" := (obind r (fun x => k))
  (at level 61, r at next level, right associativity) : py_scope.
Notation "' p <~ r ;; k" := (obind r (fun p => k))
  (at level 61, p pattern, r at next level, right associativity) : py_scope.

(** [l[i] = v] with [i >= 0]. *)
Fixpoint setitem {A : Type} (l : list A) (i : nat) (v : A) : outcome (list A) :=
  match l, i with
  | [], _ => Failed IndexError
  | _ :: t, O => Done (v :: t)
  | h :: t, S i' => t' <~ setitem t i' v ;; Done (h :: t')
  end.

(** [str(n)] of a natural number. *)
Definition str (n : nat) : string := NilZero.string_of_uint (Nat.to_uint n).

(** [math.sqrt] and the power [x ** n] of a float by an [int]. *)
Class LibmPow (F : Type) `{Arith F} : Type := {
  m_sqrt : F -> F;
  m_pow : F -> Z -> F
}.

(** [math.sqrt(x)]: ValueError ("math domain error") below zero. *)
Definition math_sqrt {F : Type} `{LibmPow F} (x : F) : result F :=
  if x <! of_int 0 then Raise ValueError else Ok (m_sqrt x).

#[export] Instance exact_libm_pow : LibmPow R := {
  m_sqrt := R_sqrt.sqrt;
  m_pow := powerRZ
}.

(* ================================================================== *)
(** ** map_1.py: the window, its points and its files *)

Module Map1UI.
Import Map1.
Section Defs.
Context {F : Type} `{Arith F}.

(** A [DraggablePoint]: its scene position and its [idx]. *)
Record DraggablePoint : Type := mkPoint {
  pos : F * F;
  idx : Z
}.

(** [image_item] is [None] or the loaded image, of which the model keeps
    the centre of the scene rectangle. *)
Record MainWindow : Type := mkWindow {
  image_item : option (F * F);
  geomap : GeoMapper F;
  points : list DraggablePoint
}.

(** [MainWindow.__init__] before it loads the default image. *)
Definition empty_window : MainWindow := mkWindow None init [].

Definition add_waypoint_center (self : MainWindow) : MainWindow :=
  match image_item self with
  | None => self
  | Some (x, y) =>
      let idx := Z.of_nat (length (points self)) in
      mkWindow (image_item self) (geomap self)
               (points self ++ [mkPoint (x, y) idx])
  end.

(** [pix] is [None] when [QPixmap(path).isNull()], and the centre of the
    pixmap's rectangle otherwise.  Returns the window and the boolean the
    method returns. *)
Definition load_image_from_path (self : MainWindow) (pix : option (F * F))
  : MainWindow * bool :=
  match pix with
  | None => (self, false)
  | Some c => (add_waypoint_center (mkWindow (Some c) init []), true)
  end.

(** [pick_calibration_pixel] on the window's mapper. *)
Definition pick (self : MainWindow) (which : Z) (cp : CalPoint F)
  : result MainWindow :=
  '(g, _) <- pick_calibration_pixel (geomap self) which cp ;;
  Ok (mkWindow (image_item self) g (points self)).

(** The operator drags the point at position [i] of [points] to [p]. *)
Fixpoint drag (ps : list DraggablePoint) (i : nat) (p : F * F)
  : list DraggablePoint :=
  match ps, i with
  | [], _ => []
  | q :: ps', O => mkPoint p (idx q) :: ps'
  | q :: ps', S i' => q :: drag ps' i' p
  end.

(** What [update_selected_readout] writes: the label, and the two boxes
    (numbers are kept as numbers, the source prints 8 decimals). *)
Inductive lat_lon_boxes : Type :=
| Coordinates (lat lon : F)
| Dash
| Set_cal.

Inductive readout : Type :=
| Selected_none
| Selected_WP (idx : Z) (boxes : lat_lon_boxes).

(** [sel] is the list of the selected [DraggablePoint]s of the scene. *)
Definition update_selected_readout (self : MainWindow)
  (sel : list DraggablePoint) : readout :=
  match sel with
  | [] => Selected_none
  | p :: _ =>
      Selected_WP (idx p)
        (if is_ready (geomap self)
         then match px_to_ll (geomap self) (fst (pos p)) (snd (pos p)) with
              | Ok (lat, lon) => Coordinates lat lon
              | Raise _ => Dash
              end
         else Set_cal)
  end.

(** The JSON document of [save_waypoints] and [load_waypoints]: an absent
    key is [None]; numbers are numbers. *)
Record WaypointJson : Type := mkWaypointJson {
  j_id : option Z;
  j_lat : option F;
  j_lon : option F;
  j_px : option F;
  j_py : option F
}.

Record FileJson : Type := mkFileJson {
  j_calibration : option (option (CalPoint F) * option (CalPoint F));
  j_waypoints : option (list WaypointJson)
}.

(** The loop of [save_waypoints] over [self.points]. *)
Fixpoint save_points (gm : GeoMapper F) (ps : list DraggablePoint)
  : result (list WaypointJson) :=
  match ps with
  | [] => Ok []
  | p :: ps' =>
      '(lat, lon) <- px_to_ll gm (fst (pos p)) (snd (pos p)) ;;
      rest <- save_points gm ps' ;;
      Ok (mkWaypointJson (Some (idx p)) (Some lat) (Some lon)
                         (Some (fst (pos p))) (Some (snd (pos p))) :: rest)
  end.

(** [save_waypoints] with the file dialog accepted: the document written,
    or [None] when the method returns before writing. *)
Definition save_waypoints (self : MainWindow) : result (option FileJson) :=
  if negb (is_ready (geomap self)) then Ok None
  else
    wps <- save_points (geomap self) (points self) ;;
    Ok (Some (mkFileJson (Some (p1 (geomap self), p2 (geomap self)))
                         (Some wps))).

(** The loop of [load_waypoints] over [data.get("waypoints", [])];
    [points] is [self.points] as built so far. *)
Fixpoint load_points (gm : GeoMapper F) (wps : list WaypointJson)
  (points : list DraggablePoint) : outcome (list DraggablePoint) :=
  match wps with
  | [] => Done points
  | wp :: rest =>
      let idx := match j_id wp with
                 | Some i => i
                 | None => Z.of_nat (length points)
                 end in
      match j_px wp, j_py wp with
      | Some x, Some y => load_points gm rest (points ++ [mkPoint (x, y) idx])
      | _, _ =>
          if negb (is_ready gm) then load_points gm rest points
          else
            match j_lat wp with
            | None => Failed (KeyError "lat")
            | Some la =>
                match j_lon wp with
                | None => Failed (KeyError "lon")
                | Some lo =>
                    p <~ lift (ll_to_px gm la lo) ;;
                    load_points gm rest (points ++ [mkPoint p idx])
                end
            end
      end
  end.

(** [for i, p in enumerate(self.points): p.idx = i], from index [i]. *)
Fixpoint reindex (i : nat) (ps : list DraggablePoint) : list DraggablePoint :=
  match ps with
  | [] => []
  | p :: ps' => mkPoint (pos p) (Z.of_nat i) :: reindex (S i) ps'
  end.

(** [load_waypoints] with the file dialog accepted and the document read. *)
Definition load_waypoints (self : MainWindow) (data : FileJson)
  : outcome MainWindow :=
  gm <~ match j_calibration data with
        | Some (Some a, Some b) => lift (set_points (geomap self) a b)
        | _ => Done (geomap self)
        end ;;
  ps <~ load_points gm (match j_waypoints data with
                        | Some l => l
                        | None => []
                        end) [] ;;
  Done (mkWindow (image_item self) gm (reindex 0 ps)).

(** The operations of the window that touch the mapper or the points. *)
Inductive op : Type :=
| Load_image (pix : option (F * F))
| Pick (which : Z) (cp : CalPoint F)
| Add_waypoint_center
| Drag (i : nat) (p : F * F)
| Load_waypoints (data : FileJson).

Definition do_op (self : MainWindow) (o : op) : outcome MainWindow :=
  match o with
  | Load_image pix => Done (fst (load_image_from_path self pix))
  | Pick which cp => lift (pick self which cp)
  | Add_waypoint_center => Done (add_waypoint_center self)
  | Drag i p =>
      Done (mkWindow (image_item self) (geomap self) (drag (points self) i p))
  | Load_waypoints data => load_waypoints self data
  end.

Fixpoint run (self : MainWindow) (os : list op) : outcome MainWindow :=
  match os with
  | [] => Done self
  | o :: os' => w <~ do_op self o ;; run w os'
  end.
End Defs.
Arguments DraggablePoint F : clear implicits.
Arguments MainWindow F : clear implicits.
Arguments WaypointJson F : clear implicits.
Arguments FileJson F : clear implicits.
Arguments lat_lon_boxes F : clear implicits.
Arguments readout F : clear implicits.
Arguments op F : clear implicits.
End Map1UI.

(* ================================================================== *)
(** ** map_2.py: the window, its two lists and its files *)

Module Map2UI.
Import Map2.
Section Defs.
Context {F : Type} `{Libm F}.

(** [itemChange] at [ItemPositionChange]: the position Qt is given back. *)
Definition itemChange (p : F * F) : F * F :=
  (clamp (fst p) (of_int 0) (of_int W_PX),
   clamp (snd p) (of_int 0) (of_int H_PX)).

(** [add_mode] is the entry of the combo box: "Waypoint" or
    "Mission Element". *)
Record MainWindow : Type := mkWindow {
  waypoints : list (DraggableBase F);
  missions : list (DraggableBase F);
  snap_cb : bool;
  add_mode : Kind
}.

(** [MainWindow.__init__]: no item, snapping off, mode "Waypoint". *)
Definition empty_window : MainWindow := mkWindow [] [] false waypoint.

Definition window_add_waypoint (self : MainWindow) (final_x final_y : F)
  (nm : string) : result MainWindow :=
  item <- _add_waypoint (snap_cb self) (waypoints self) final_x final_y nm ;;
  Ok (mkWindow (waypoints self ++ [item]) (missions self)
               (snap_cb self) (add_mode self)).

Definition window_add_mission (self : MainWindow) (final_x final_y : F)
  (nm : string) : result MainWindow :=
  item <- _add_mission (snap_cb self) (missions self) final_x final_y nm ;;
  Ok (mkWindow (waypoints self) (missions self ++ [item])
               (snap_cb self) (add_mode self)).

Definition handle_double_click_add (self : MainWindow) (x_px y_px : F)
  : result MainWindow :=
  let '(final_x, final_y) := px_to_meters x_px y_px in
  match add_mode self with
  | waypoint =>
      window_add_waypoint self final_x final_y
        ("wp" ++ str (length (waypoints self) + 1))
  | mission =>
      window_add_mission self final_x final_y
        ("ms" ++ str (length (missions self) + 1))
  end.

Definition add_waypoint_center (self : MainWindow) : result MainWindow :=
  window_add_waypoint self (of_int 0) (of_int 0)
    ("wp" ++ str (length (waypoints self) + 1)).

Definition add_mission_center (self : MainWindow) : result MainWindow :=
  window_add_mission self (of_int 0) (of_int 0)
    ("ms" ++ str (length (missions self) + 1)).

Definition clear_all (self : MainWindow) : MainWindow :=
  mkWindow [] [] (snap_cb self) (add_mode self).

(** The body of [on_item_moved] for the selected item [sel]. *)
Definition on_item_moved (snap_cb : bool) (sel : DraggableBase F)
  : result (DraggableBase F) :=
  let '(final_x, final_y) := px_to_meters (fst (pos sel)) (snd (pos sel)) in
  let '(final_x, final_y) := clamp_xy final_x final_y in
  '(final_x, final_y) <- snap_xy snap_cb final_x final_y ;;
  set_item_final snap_cb sel final_x final_y.

(** [apply_from_latlon_boxes] with an item selected, a valid origin and
    two numbers typed. *)
Definition apply_from_latlon_boxes (snap_cb : bool) (sel : DraggableBase F)
  (o_lat o_lon la lo : F) : result (DraggableBase F) :=
  let '(final_x, final_y) := latlon_to_meters o_lat o_lon la lo in
  let '(final_x, final_y) := clamp_xy final_x final_y in
  '(final_x, final_y) <- snap_xy snap_cb final_x final_y ;;
  set_item_final snap_cb sel final_x final_y.

(** The selected item is an element of one of the two lists; the methods
    that edit it assign to its attributes.  [update_at] is that
    assignment, seen from the list. *)
Fixpoint update_at (l : list (DraggableBase F)) (i : nat)
  (f : DraggableBase F -> result (DraggableBase F))
  : result (list (DraggableBase F)) :=
  match l, i with
  | [], _ => Ok []
  | item :: l', O => item' <- f item ;; Ok (item' :: l')
  | item :: l', S i' => l'' <- update_at l' i' f ;; Ok (item :: l'')
  end.

Definition edit_selected (self : MainWindow) (k : Kind) (i : nat)
  (f : DraggableBase F -> result (DraggableBase F)) : result MainWindow :=
  match k with
  | waypoint =>
      l <- update_at (waypoints self) i f ;;
      Ok (mkWindow l (missions self) (snap_cb self) (add_mode self))
  | mission =>
      l <- update_at (missions self) i f ;;
      Ok (mkWindow (waypoints self) l (snap_cb self) (add_mode self))
  end.

(** [sel.name = name] of [apply_name], for a name that is not empty. *)
Definition with_name (item : DraggableBase F) (nm : string) : DraggableBase F :=
  mkItem (kind item) (item_id_1based item) nm
         (base_x item) (base_y item) (off_x item) (off_y item) (pos item).

Definition with_id (item : DraggableBase F) (i : Z) : DraggableBase F :=
  mkItem (kind item) i (name item)
         (base_x item) (base_y item) (off_x item) (off_y item) (pos item).

(** An entry of "waypoints" or "mission_elements" that the [try] block
    of [load_json] reads without exception; [j_name] is the stripped name
    (empty when the key is absent), an absent offset is [None]. *)
Record ItemJson : Type := mkItemJson {
  j_x : F;
  j_y : F;
  j_name : string;
  j_off_x : option F;
  j_off_y : option F
}.

(** [None] is an entry at which the [try] block raises: it is skipped. *)
Record FileJson : Type := mkFileJson {
  j_waypoints : list (option ItemJson);
  j_mission_elements : list (option ItemJson)
}.

Definition or_zero (o : option F) : F :=
  match o with
  | Some v => v
  | None => of_int 0
  end.

(** The code after the [try] block: add the item, then give the last
    item of the list its offset and its base, and apply. *)
Definition load_item (snap_cb : bool) (item : DraggableBase F) (e : ItemJson)
  : result (DraggableBase F) :=
  let w := with_off item (or_zero (j_off_x e)) (or_zero (j_off_y e)) in
  let w := with_base w (j_x e -! off_x w) (j_y e -! off_y w) in
  _apply_item_to_scene snap_cb w.

Fixpoint load_waypoint_entries (snap_cb : bool) (es : list (option ItemJson))
  (waypoints : list (DraggableBase F)) : result (list (DraggableBase F)) :=
  match es with
  | [] => Ok waypoints
  | None :: es' => load_waypoint_entries snap_cb es' waypoints
  | Some e :: es' =>
      let nm := if (j_name e =? EmptyString)%string
                then ("wp" ++ str (length waypoints + 1))%string
                else j_name e in
      item <- _add_waypoint snap_cb waypoints (j_x e) (j_y e) nm ;;
      w <- load_item snap_cb item e ;;
      load_waypoint_entries snap_cb es' (waypoints ++ [w])
  end.

Fixpoint load_mission_entries (snap_cb : bool) (es : list (option ItemJson))
  (missions : list (DraggableBase F)) : result (list (DraggableBase F)) :=
  match es with
  | [] => Ok missions
  | None :: es' => load_mission_entries snap_cb es' missions
  | Some e :: es' =>
      let nm := if (j_name e =? EmptyString)%string
                then ("ms" ++ str (length missions + 1))%string
                else j_name e in
      item <- _add_mission snap_cb missions (j_x e) (j_y e) nm ;;
      m <- load_item snap_cb item e ;;
      load_mission_entries snap_cb es' (missions ++ [m])
  end.

(** [for i, w in enumerate(l): w.item_id_1based = i + 1], from index [i]. *)
Fixpoint renumber (i : nat) (l : list (DraggableBase F))
  : list (DraggableBase F) :=
  match l with
  | [] => []
  | w :: l' => with_id w (Z.of_nat i + 1) :: renumber (S i) l'
  end.

(** [load_json] with the file dialog accepted and the document read. *)
Definition load_json (self : MainWindow) (data : FileJson)
  : result MainWindow :=
  ws <- load_waypoint_entries (snap_cb self) (j_waypoints data) [] ;;
  ms <- load_mission_entries (snap_cb self) (j_mission_elements data) [] ;;
  Ok (mkWindow (renumber 0 ws) (renumber 0 ms) (snap_cb self) (add_mode self)).

(** The operations of the window on its two lists.  [Selected k i c] is
    an edit [c] of the selected item, the [i]-th of the list [k];
    [Moved k i p] is that item dragged to the pixel [p]. *)
Inductive op : Type :=
| Set_snap (b : bool)
| Set_add_mode (k : Kind)
| Double_click (x_px y_px : F)
| Add_waypoint_center
| Add_mission_center
| Selected (k : Kind) (i : nat) (c : call F)
| Named (k : Kind) (i : nat) (nm : string)
| Moved (k : Kind) (i : nat) (p : F * F)
| Load_json (data : FileJson)
| Clear_all.

Definition do_op (self : MainWindow) (o : op) : result MainWindow :=
  match o with
  | Set_snap b => Ok (mkWindow (waypoints self) (missions self) b (add_mode self))
  | Set_add_mode k =>
      Ok (mkWindow (waypoints self) (missions self) (snap_cb self) k)
  | Double_click x y => handle_double_click_add self x y
  | Add_waypoint_center => add_waypoint_center self
  | Add_mission_center => add_mission_center self
  | Selected k i c => edit_selected self k i (fun item => step item c)
  | Named k i nm => edit_selected self k i (fun item => Ok (with_name item nm))
  | Moved k i p =>
      edit_selected self k i
        (fun item => on_item_moved (snap_cb self) (setPos item (itemChange p)))
  | Load_json data => load_json self data
  | Clear_all => Ok (clear_all self)
  end.

Fixpoint run (self : MainWindow) (os : list op) : result MainWindow :=
  match os with
  | [] => Ok self
  | o :: os' => w <- do_op self o ;; run w os'
  end.
End Defs.
Arguments MainWindow F : clear implicits.
Arguments ItemJson F : clear implicits.
Arguments FileJson F : clear implicits.
Arguments op F : clear implicits.
End Map2UI.

(* ================================================================== *)
(** ** map_4.py: the window and its list of waypoint records *)

Module Map4UI.
Import Map4.
Section Defs.
Context {F : Type} `{Libm F}.

Definition PX_PER_M : F := of_int 8.
Definition W_PX : Z := 800.
Definition H_PX : Z := 800.

(** A [WaypointGraphic] of the scene: its [wp_id] and its position. *)
Record WaypointGraphic : Type := mkGraphic {
  wp_id : nat;
  pos : F * F
}.

(** An entry of [waypoints_data]: the dict with keys lat, lon, x, y. *)
Record WaypointData : Type := mkData {
  d_lat : F;
  d_lon : F;
  d_x : F;
  d_y : F
}.

(** [graphics] are the [WaypointGraphic] items of the scene, in the order
    they were added. *)
Record MainWindow : Type := mkWindow {
  waypoints_data : list WaypointData;
  graphics : list WaypointGraphic
}.

Definition empty_window : MainWindow := mkWindow [] [].

Definition m_to_px (x y : F) : F * F :=
  (fquo (of_int W_PX) (of_int 2) +! (x *! PX_PER_M),
   fquo (of_int H_PX) (of_int 2) -! (y *! PX_PER_M)).

Definition px_to_m (px_x px_y : F) : F * F :=
  (fquo (px_x -! fquo (of_int W_PX) (of_int 2)) PX_PER_M,
   fquo (fquo (of_int H_PX) (of_int 2) -! px_y) PX_PER_M).

(** The body of the [try] block of [add_waypoint], the six boxes read. *)
Definition add_waypoint_body (self : MainWindow)
  (o_lat o_lon m_lat m_lon brg dst : F) : result MainWindow :=
  '(t_lat, t_lon) <- calculate_forward_geodesic m_lat m_lon brg dst ;;
  let '(tx, ty) := latlon_to_local_xy o_lat o_lon t_lat t_lon in
  let '(px, py) := m_to_px tx ty in
  let wp_id := length (waypoints_data self) in
  let wp_item := mkGraphic wp_id (px, py) in
  Ok (mkWindow (waypoints_data self ++ [mkData t_lat t_lon tx ty])
               (graphics self ++ [wp_item])).

(** [add_waypoint]: [boxes] is [None] when a box does not hold a number;
    every exception ends in the message box, the window unchanged. *)
Definition add_waypoint (self : MainWindow)
  (boxes : option (F * F * F * F * F * F)) : MainWindow :=
  match boxes with
  | None => self
  | Some (o_lat, o_lon, m_lat, m_lon, brg, dst) =>
      match add_waypoint_body self o_lat o_lon m_lat m_lon brg dst with
      | Ok w => w
      | Raise _ => self
      end
  end.

(** [origin] is [None] when an origin box does not hold a number. *)
Definition update_waypoint_coords (self : MainWindow)
  (origin : option (F * F)) (wp_id : nat) (pos : F * F) : outcome MainWindow :=
  match origin with
  | None => Failed (Arithmetic ValueError)
  | Some (o_lat, o_lon) =>
      let '(mx, my) := px_to_m (fst pos) (snd pos) in
      '(t_lat, t_lon) <~ lift (local_xy_to_latlon o_lat o_lon mx my) ;;
      l <~ setitem (waypoints_data self) wp_id (mkData t_lat t_lon mx my) ;;
      Done (mkWindow l (graphics self))
  end.

(** The operator drags the [k]-th graphic to [p]: Qt moves it, and
    [itemChange] calls [update_waypoint_coords] with the item's id. *)
Fixpoint move (gs : list WaypointGraphic) (k : nat) (p : F * F)
  : list WaypointGraphic :=
  match gs, k with
  | [], _ => []
  | g :: gs', O => mkGraphic (wp_id g) p :: gs'
  | g :: gs', S k' => g :: move gs' k' p
  end.

Definition drag (self : MainWindow) (origin : option (F * F)) (k : nat)
  (p : F * F) : outcome MainWindow :=
  match nth_error (graphics self) k with
  | None => Done self
  | Some g =>
      update_waypoint_coords
        (mkWindow (waypoints_data self) (move (graphics self) k p))
        origin (wp_id g) p
  end.

(** [clear_all]: [draw_grid] clears the scene. *)
Definition clear_all (self : MainWindow) : MainWindow := mkWindow [] [].

Inductive op : Type :=
| Add_waypoint (boxes : option (F * F * F * F * F * F))
| Drag (origin : option (F * F)) (k : nat) (p : F * F)
| Clear_all.

Definition do_op (self : MainWindow) (o : op) : outcome MainWindow :=
  match o with
  | Add_waypoint boxes => Done (add_waypoint self boxes)
  | Drag origin k p => drag self origin k p
  | Clear_all => Done (clear_all self)
  end.

Fixpoint run (self : MainWindow) (os : list op) : outcome MainWindow :=
  match os with
  | [] => Done self
  | o :: os' => w <~ do_op self o ;; run w os'
  end.
End Defs.
Arguments WaypointGraphic F : clear implicits.
Arguments WaypointData F : clear implicits.
Arguments MainWindow F : clear implicits.
Arguments op F : clear implicits.
End Map4UI.

(* ================================================================== *)
(** ** map_6.py: the items, the window and its table *)

Module Map6UI.
Import Map6.
Section Defs.
Context {F : Type} {A : Arith F} {L : Libm F} {P : LibmPow F}.

Definition PX_PER_M : F := of_int 8.
Definition W_PX : Z := 800.
Definition H_PX : Z := 800.
Definition CENTER_X_PX : F := fquo (of_int W_PX) (of_int 2).
Definition CENTER_Y_PX : F := of_int H_PX *! decimal 9 1.

Inductive ItemClass : Type := MissionElement | Waypoint.

(** A [MissionElement] or a [Waypoint].  [uid] is the identity of the
    Python object: [list.remove] and the scene find an item by it. *)
Record MapItem : Type := mkMapItem {
  uid : nat;
  cls : ItemClass;
  pos : F * F;
  start_pos : F * F;
  lat : F;
  lon : F;
  label : string
}.

(** The pair [update_coords] assigns to [self.lat, self.lon]. *)
Definition coords_at (p : F * F) : result (F * F) :=
  let nm := fquo (fst p -! CENTER_X_PX) PX_PER_M in
  let em := fquo (snd p -! CENTER_Y_PX) PX_PER_M in
  meters_to_latlon em nm.

Definition update_coords (self : MapItem) : result MapItem :=
  '(la, lo) <- coords_at (pos self) ;;
  Ok (mkMapItem (uid self) (cls self) (pos self) (start_pos self) la lo
                (label self)).

(** The constructors: [setPos], [setup_base] with an empty label and
    [start_pos = pos], then [update_coords]. *)
Definition new_item (u : nat) (c : ItemClass) (x y : F) : result MapItem :=
  '(la, lo) <- coords_at (x, y) ;;
  Ok (mkMapItem u c (x, y) (x, y) la lo EmptyString).

Definition get_displacement_m (self : MapItem) : result F :=
  let dx := fquo (fst (pos self) -! fst (start_pos self)) PX_PER_M in
  let dy := fquo (snd (pos self) -! snd (start_pos self)) PX_PER_M in
  math_sqrt (m_pow dx 2 +! m_pow dy 2).

(** [panel] is the index of [panel_stack]; [next_uid] is the identity the
    next object gets. *)
Record MainWindow : Type := mkWindow {
  elements : list MapItem;
  waypoints : list MapItem;
  panel : Z;
  next_uid : nat
}.

Definition empty_window : MainWindow := mkWindow [] [] 0 0.

Definition with_label (e : MapItem) (s : string) : MapItem :=
  mkMapItem (uid e) (cls e) (pos e) (start_pos e) (lat e) (lon e) s.

(** [for i, e in enumerate(l): e.label.setPlainText(f"{prefix}{i+1}")],
    from index [i]. *)
Fixpoint relabel (prefix : string) (i : nat) (l : list MapItem) : list MapItem :=
  match l with
  | [] => []
  | e :: l' => with_label e (prefix ++ str (i + 1)) :: relabel prefix (S i) l'
  end.

Definition refresh_table_data (self : MainWindow) : MainWindow :=
  mkWindow (relabel "O" 0 (elements self)) (relabel "W" 0 (waypoints self))
           (panel self) (next_uid self).

(** The rows [refresh_table_data] gives the table: id, type, latitude and
    longitude (the source prints 7 decimals). *)
Fixpoint rows (prefix type_str : string) (i : nat) (l : list MapItem)
  : list (string * string * F * F) :=
  match l with
  | [] => []
  | e :: l' =>
      ((prefix ++ str (i + 1))%string, type_str, lat e, lon e)
        :: rows prefix type_str (S i) l'
  end.

Definition table (self : MainWindow) : list (string * string * F * F) :=
  rows "O" "Object" 0 (elements self) ++ rows "W" "Waypoint" 0 (waypoints self).

(** The "objects" and "path_waypoints" of [save_mission]: id, lat, lon. *)
Fixpoint saved (prefix : string) (i : nat) (l : list MapItem)
  : list (string * F * F) :=
  match l with
  | [] => []
  | e :: l' => ((prefix ++ str (i + 1))%string, lat e, lon e) :: saved prefix (S i) l'
  end.

Definition save_mission (self : MainWindow)
  : list (string * F * F) * list (string * F * F) :=
  (saved "O" 0 (elements self), saved "W" 0 (waypoints self)).

Definition switch_mode (self : MainWindow) (index : Z) : MainWindow :=
  mkWindow (elements self) (waypoints self) index (next_uid self).

Definition handle_map_double_click (self : MainWindow) (p : F * F)
  : result MainWindow :=
  if (panel self =? 0)%Z then
    obj <- new_item (next_uid self) MissionElement (fst p) (snd p) ;;
    Ok (refresh_table_data
          (mkWindow (elements self ++ [obj]) (waypoints self)
                    (panel self) (S (next_uid self))))
  else
    wp <- new_item (next_uid self) Waypoint (fst p) (snd p) ;;
    Ok (refresh_table_data
          (mkWindow (elements self) (waypoints self ++ [wp])
                    (panel self) (S (next_uid self)))).

(** [l.remove(item)]: the first element that is [item]; ValueError when
    there is none. *)
Fixpoint remove (item : MapItem) (l : list MapItem) : result (list MapItem) :=
  match l with
  | [] => Raise ValueError
  | e :: l' =>
      if (uid e =? uid item)%nat then Ok l'
      else l'' <- remove item l' ;; Ok (e :: l'')
  end.

(** The loop of [delete_selected_item] over the selected items. *)
Fixpoint delete_items (self : MainWindow) (selected : list MapItem)
  : result MainWindow :=
  match selected with
  | [] => Ok self
  | item :: rest =>
      w <- match cls item with
           | MissionElement =>
               l <- remove item (elements self) ;;
               Ok (mkWindow l (waypoints self) (panel self) (next_uid self))
           | Waypoint =>
               l <- remove item (waypoints self) ;;
               Ok (mkWindow (elements self) l (panel self) (next_uid self))
           end ;;
      delete_items w rest
  end.

Definition delete_selected_item (self : MainWindow) (selected : list MapItem)
  : result MainWindow :=
  match selected with
  | [] => Ok self
  | _ => w <- delete_items self selected ;; Ok (refresh_table_data w)
  end.

(** [item.setPos(p)] on the item of identity [u] of a list, followed by
    the [update_coords] of its [itemChange]. *)
Fixpoint set_pos (l : list MapItem) (u : nat) (p : MapItem -> F * F)
  : result (list MapItem) :=
  match l with
  | [] => Ok []
  | e :: l' =>
      e' <- (if (uid e =? u)%nat
             then update_coords (mkMapItem (uid e) (cls e) (p e) (start_pos e)
                                           (lat e) (lon e) (label e))
             else Ok e) ;;
      l'' <- set_pos l' u p ;;
      Ok (e' :: l'')
  end.

(** An item moves, by the mouse or by [setPos]: [itemChange] updates its
    coordinates and calls [on_move], which is [refresh_table_data]. *)
Definition item_moved (self : MainWindow) (u : nat) (p : MapItem -> F * F)
  : result MainWindow :=
  es <- set_pos (elements self) u p ;;
  ws <- set_pos (waypoints self) u p ;;
  Ok (refresh_table_data (mkWindow es ws (panel self) (next_uid self))).

Fixpoint nudge_items (self : MainWindow) (selected : list MapItem)
  (dx_px dy_px : F) : result MainWindow :=
  match selected with
  | [] => Ok self
  | item :: rest =>
      w <- item_moved self (uid item)
             (fun e => (fst (pos e) +! dx_px, snd (pos e) +! dy_px)) ;;
      nudge_items w rest dx_px dy_px
  end.

(** [nudge_selected_item]: the two numbers are those of the boxes
    [in_lat] and [in_lon], which the method reads.  The [except: pass] of
    the source is not modelled: an exception of [update_coords] comes out
    as [Raise]. *)
Definition nudge_selected_item (self : MainWindow) (selected : list MapItem)
  (in_lat in_lon : F) : result MainWindow :=
  match selected with
  | [] => Ok self
  | _ =>
      let dy_px := fneg in_lat *! PX_PER_M in
      let dx_px := in_lon *! PX_PER_M in
      w <- nudge_items self selected dx_px dy_px ;;
      Ok (refresh_table_data w)
  end.

(** The body of the [try] block of [add_surveyed_element_by_input]. *)
Definition add_surveyed_element_body (self : MainWindow)
  (in_lat in_lon in_brg in_dist : F) : result MainWindow :=
  '(t_lat, t_lon) <- calculate_projection in_lat in_lon in_brg in_dist ;;
  let '(em, nm) := latlon_to_meters t_lat t_lon in
  let px := CENTER_X_PX +! (nm *! PX_PER_M) in
  let py := CENTER_Y_PX +! (em *! PX_PER_M) in
  obj <- new_item (next_uid self) MissionElement px py ;;
  Ok (refresh_table_data
        (mkWindow (elements self ++ [obj]) (waypoints self)
                  (panel self) (S (next_uid self)))).

(** [except: pass]: an exception leaves the window as it was. *)
Definition add_surveyed_element_by_input (self : MainWindow)
  (in_lat in_lon in_brg in_dist : F) : MainWindow :=
  match add_surveyed_element_body self in_lat in_lon in_brg in_dist with
  | Ok w => w
  | Raise _ => self
  end.

Inductive op : Type :=
| Switch_mode (index : Z)
| Double_click (p : F * F)
| Delete (selected : list MapItem)
| Nudge (selected : list MapItem) (in_lat in_lon : F)
| Project (in_lat in_lon in_brg in_dist : F)
| Dragged (u : nat) (p : F * F).

Definition do_op (self : MainWindow) (o : op) : result MainWindow :=
  match o with
  | Switch_mode index => Ok (switch_mode self index)
  | Double_click p => handle_map_double_click self p
  | Delete selected => delete_selected_item self selected
  | Nudge selected la lo => nudge_selected_item self selected la lo
  | Project la lo brg dist =>
      Ok (add_surveyed_element_by_input self la lo brg dist)
  | Dragged u p => item_moved self u (fun _ => p)
  end.

Fixpoint run (self : MainWindow) (os : list op) : result MainWindow :=
  match os with
  | [] => Ok self
  | o :: os' => w <- do_op self o ;; run w os'
  end.
End Defs.
Arguments MapItem F : clear implicits.
Arguments MainWindow F : clear implicits.
Arguments op F : clear implicits.
End Map6UI.

(* ================================================================== *)
(** ** Vocabulary of the statements *)

(** Some coordinate of two calibration points coincides. *)
Definition degenerate {F : Type} `{Arith F} (a b : Map1.CalPoint F) : bool :=
  negb (fneb (Map1.px b) (Map1.px a) && fneb (Map1.py b) (Map1.py a) &&
        fneb (Map1.lon b) (Map1.lon a) && fneb (Map1.lat b) (Map1.lat a)).

(** Arithmetic in which two numbers that compare different have a
    difference that compares different from zero.  Exact arithmetic has the
    property, and so has IEEE-754 arithmetic with gradual underflow. *)
Class SubtractionSeparates (F : Type) `{Arith F} : Prop :=
  sub_separates :
    forall x y : F, (x ==! y) = false -> ((x -! y) ==! of_int 0) = false.


(** A few values used as concrete inputs.  [item0] is the first waypoint
    of an editor, as [add_waypoint_center] creates it. *)
Definition item0 : Map2.DraggableBase float :=
  Map2.mkItem Map2.waypoint 1 "wp1" 0%float 0%float 0%float 0%float
              (400%float, 400%float).

Definition cal_unit : Map1.GeoMapper float :=
  Map1.mkGeoMapper (Some (Map1.mkCalPoint 0 0 0 0)%float)
                   (Some (Map1.mkCalPoint 1 1 10 10)%float).

Definition cal_close : Map1.GeoMapper float :=
  Map1.mkGeoMapper
    (Some (Map1.mkCalPoint 100 200 27.375 (-82.453))%float)
    (Some (Map1.mkCalPoint 1100 1200 27.375001 (-82.453001))%float).

Definition cal_field : Map1.GeoMapper R :=
  Map1.mkGeoMapper
    (Some (Map1.mkCalPoint 100 200 27.375 (-82.453))%R)
    (Some (Map1.mkCalPoint 900 700 27.374 (-82.452))%R).



(** An operation of map_4's window that reads the origin boxes reads
    [origin] there. *)
Definition reads_origin (origin : R * R) (o : Map4UI.op R) : Prop :=
  match o with
  | Map4UI.Add_waypoint (Some (o_lat, o_lon, _, _, _, _)) =>
      (o_lat, o_lon) = origin
  | Map4UI.Add_waypoint None => True
  | Map4UI.Drag o' _ _ => o' = Some origin
  | Map4UI.Clear_all => True
  end.

(** A record of [waypoints_data] and the graphic of the same position:
    the record's x, y are the local metres of its lat, lon about [origin],
    and the graphic is drawn at the pixel of x, y. *)
Definition in_sync (origin : R * R) (d : Map4UI.WaypointData R)
  (g : Map4UI.WaypointGraphic R) : Prop :=
  Map4.latlon_to_local_xy (fst origin) (snd origin)
    (Map4UI.d_lat d) (Map4UI.d_lon d) = (Map4UI.d_x d, Map4UI.d_y d) /\
  Map4UI.pos g = Map4UI.m_to_px (Map4UI.d_x d) (Map4UI.d_y d).

(** The objects of map_6's window: each has an identity of its own, below
    [next_uid], and is in the list of its class. *)
Definition distinct_objects {F : Type} (w : Map6UI.MainWindow F) : Prop :=
  NoDup (map Map6UI.uid (Map6UI.elements w ++ Map6UI.waypoints w)) /\
  Forall (fun e => (Map6UI.uid e < Map6UI.next_uid w)%nat)
         (Map6UI.elements w ++ Map6UI.waypoints w) /\
  Forall (fun e => Map6UI.cls e = Map6UI.MissionElement) (Map6UI.elements w) /\
  Forall (fun e => Map6UI.cls e = Map6UI.Waypoint) (Map6UI.waypoints w).

(** The labels of a list are the prefix followed by 1, 2, ... in the
    order of the list. *)
Definition labelled {F : Type} (prefix : string) (l : list (Map6UI.MapItem F))
  : Prop :=
  map Map6UI.label l
    = map (fun k => (prefix ++ str (k + 1))%string) (seq 0 (length l)).

(** [e] is none of the objects of [selected]. *)
Definition unselected {F : Type} (selected : list (Map6UI.MapItem F))
  (e : Map6UI.MapItem F) : bool :=
  negb (existsb (fun s => (Map6UI.uid s =? Map6UI.uid e)%nat) selected).

(** What [nudge_selected_item] with the numbers [a] (box [in_lat]) and
    [b] (box [in_lon]) makes of an item [e] of the window, when the item
    of identity [u] is the selection: the selected item moves by
    [(b * 8, - a * 8)] pixels and its coordinates are recomputed; from its
    start position it is then [sqrt (a * a + b * b)] metres away.  Another
    item keeps its position and coordinates. *)
Definition nudged (u : nat) (a b : R) (e e' : Map6UI.MapItem R) : Prop :=
  Map6UI.uid e' = Map6UI.uid e /\ Map6UI.cls e' = Map6UI.cls e /\
  Map6UI.start_pos e' = Map6UI.start_pos e /\
  if (Map6UI.uid e =? u)%nat
  then Map6UI.pos e' = (fst (Map6UI.pos e) + b * 8, snd (Map6UI.pos e) + - a * 8)%R /\
       Map6UI.coords_at (Map6UI.pos e') = Ok (Map6UI.lat e', Map6UI.lon e') /\
       (Map6UI.pos e = Map6UI.start_pos e ->
        Map6UI.get_displacement_m e' = Ok (R_sqrt.sqrt (a * a + b * b)))
  else Map6UI.pos e' = Map6UI.pos e /\ Map6UI.lat e' = Map6UI.lat e /\
       Map6UI.lon e' = Map6UI.lon e.

(** Sessions and windows used as concrete inputs. *)
Definition map1_session : list (Map1UI.op float) :=
  [Map1UI.Load_image (Some (320, 240)%float);
   Map1UI.Add_waypoint_center;
   Map1UI.Load_waypoints
     (Map1UI.mkFileJson None
        (Some [Map1UI.mkWaypointJson (Some 7%Z) None None
                 (Some 10%float) (Some 20%float);
               Map1UI.mkWaypointJson (Some 7%Z) (Some 1%float) (Some 2%float)
                 None None;
               Map1UI.mkWaypointJson None None None
                 (Some 30%float) (Some 40%float)]));
   Map1UI.Add_waypoint_center;
   Map1UI.Drag 1 (5, 5)%float].

Definition map1_window : Map1UI.MainWindow float :=
  Map1UI.mkWindow (Some (320, 240)%float) cal_close
    [Map1UI.mkPoint (512.3, 300.7)%float 0;
     Map1UI.mkPoint (100, 200)%float 1].


Definition map2_session : list (Map2UI.op float) :=
  [Map2UI.Add_waypoint_center;
   Map2UI.Double_click 100%float 200%float;
   Map2UI.Set_add_mode Map2.mission;
   Map2UI.Double_click 900%float (-5)%float;
   Map2UI.Selected Map2.waypoint 0 (Map2.SetOffset false 1.5%float 2.5%float);
   Map2UI.Moved Map2.mission 0 (1000, 20)%float;
   Map2UI.Load_json
     (Map2UI.mkFileJson
        [Some (Map2UI.mkItemJson 10%float 20%float EmptyString (Some 1%float) None);
         None;
         Some (Map2UI.mkItemJson 70%float (-70)%float "dock" None None)]
        [Some (Map2UI.mkItemJson 0%float 0%float "buoy" None None)]);
   Map2UI.Add_mission_center;
   Map2UI.Named Map2.waypoint 1 "exit"].


Definition map4_session : list (Map4UI.op R) :=
  [Map4UI.Add_waypoint (Some (0, 0, 0, 0, 0, 0)%R);
   Map4UI.Drag (Some (0, 0)%R) 0 (408, 392)%R;
   Map4UI.Add_waypoint None;
   Map4UI.Add_waypoint (Some (0, 0, 0, 0, 90, 10)%R)].

Definition map6_session : list (Map6UI.op R) :=
  [Map6UI.Double_click (400, 720)%R;
   Map6UI.Switch_mode 1;
   Map6UI.Double_click (408, 700)%R;
   Map6UI.Double_click (300, 300)%R;
   Map6UI.Delete [Map6UI.mkMapItem 1 Map6UI.Waypoint (408, 700)%R (408, 700)%R
                    0%R 0%R "W1"]].

Definition map6_window : Map6UI.MainWindow float :=
  Map6UI.mkWindow
    [Map6UI.mkMapItem 0 Map6UI.MissionElement (400, 720)%float (400, 720)%float
       27.375634%float (-82.452487)%float "O1";
     Map6UI.mkMapItem 2 Map6UI.MissionElement (408, 700)%float (400, 700)%float
       27.3756%float (-82.4525)%float "O2"]
    [Map6UI.mkMapItem 1 Map6UI.Waypoint (300, 300)%float (300, 300)%float
       27.3755%float (-82.4531)%float "W1"]
    1 3.

(* ================================================================== *)
(** ** Basic facts *)

(** *** The instance on the reals *)

Lemma Reqb_true (x y : R) : Reqb x y = true <-> x = y.
Proof. unfold Reqb; destruct (Req_dec_T x y); split; congruence. Qed.

Lemma Reqb_false (x y : R) : Reqb x y = false <-> x <> y.
Proof. unfold Reqb; destruct (Req_dec_T x y); split; congruence. Qed.

Lemma Rltb_true (x y : R) : Rltb x y = true <-> (x < y)%R.
Proof. unfold Rltb; destruct (Rlt_dec x y); split; (congruence || tauto). Qed.

Lemma Rltb_false (x y : R) : Rltb x y = false <-> (y <= x)%R.
Proof.
  unfold Rltb; destruct (Rlt_dec x y); split; intros; try congruence; lra.
Qed.

Lemma exact_fneb (x y : R) : fneb x y = true <-> x <> y.
Proof.
  unfold fneb; simpl. rewrite negb_true_iff. apply Reqb_false.
Qed.

Lemma exact_truediv (x y : R) : y <> 0%R -> x /! y = Ok (x / y)%R.
Proof.
  intros Hy. unfold truediv; simpl.
  apply Reqb_false in Hy. now rewrite Hy.
Qed.

Lemma exact_truediv_zero (x : R) : x /! 0%R = Raise ZeroDivisionError.
Proof.
  unfold truediv; simpl.
  assert (E : Reqb 0 0 = true) by now apply Reqb_true.
  now rewrite E.
Qed.

#[export] Instance exact_separates : SubtractionSeparates R.
Proof.
  intros x y Hxy; simpl in *.
  apply Reqb_false in Hxy. apply Reqb_false. lra.
Qed.



(* ================================================================== *)
(** ** Subtraction on binary64 never cancels two different numbers *)

(** The specification of primitive floats ([SpecFloat], [FloatAxioms])
    computes a difference by aligning the two mantissas on the smaller
    exponent, subtracting them as integers and rounding the result.  The
    exponent of a valid number is at least [emin], so the aligned difference
    is a nonzero integer at an exponent of the format, and rounding it cannot
    give zero. *)

Section Binary64Subtraction.
Local Open Scope Z_scope.


Lemma digits2_lower (m : positive) : 2 ^ (Zpos (digits2_pos m) - 1) <= Zpos m.
Proof.
  induction m as [m IH|m IH|]; simpl digits2_pos.
  - rewrite Pos2Z.inj_succ. replace (Z.succ (Zpos (digits2_pos m)) - 1)
      with (Z.succ (Zpos (digits2_pos m) - 1)) by lia.
    rewrite Z.pow_succ_r by lia. lia.
  - rewrite Pos2Z.inj_succ. replace (Z.succ (Zpos (digits2_pos m)) - 1)
      with (Z.succ (Zpos (digits2_pos m) - 1)) by lia.
    rewrite Z.pow_succ_r by lia. lia.
  - simpl. lia.
Qed.

Lemma digits2_upper (m : positive) : Zpos m < 2 ^ Zpos (digits2_pos m).
Proof.
  induction m as [m IH|m IH|]; simpl digits2_pos.
  - rewrite Pos2Z.inj_succ, Z.pow_succ_r by lia. lia.
  - rewrite Pos2Z.inj_succ, Z.pow_succ_r by lia. lia.
  - simpl. lia.
Qed.

Lemma shr_1_m (r : shr_record) : 0 <= shr_m r -> shr_m (shr_1 r) = shr_m r / 2.
Proof.
  destruct r as [m b s]; simpl. intros Hm.
  destruct m as [|p|p]; [reflexivity| |lia].
  destruct p as [p|p|]; simpl shr_m.
  - rewrite Pos2Z.inj_xI. apply Z.div_unique with 1; lia.
  - rewrite Pos2Z.inj_xO. apply Z.div_unique with 0; lia.
  - reflexivity.
Qed.

Lemma iter_shr_m (p : positive) :
  forall r, 0 <= shr_m r -> shr_m (iter_pos shr_1 p r) = shr_m r / 2 ^ Zpos p.
Proof.
  induction p as [p IH|p IH|]; intros r Hr; simpl iter_pos.
  - assert (H1 : 0 <= shr_m (shr_1 r)) by (rewrite shr_1_m by lia; apply Z.div_pos; lia).
    assert (H2 : 0 <= shr_m (iter_pos shr_1 p (shr_1 r)))
      by (rewrite IH by lia; apply Z.div_pos; lia).
    rewrite IH by lia. rewrite IH by lia. rewrite shr_1_m by lia.
    rewrite !Z.div_div by lia.
    f_equal. rewrite (Pos2Z.inj_xI p), Z.pow_add_r, Z.pow_twice_r by lia.
    change (2 ^ 1) with 2. lia.
  - assert (H2 : 0 <= shr_m (iter_pos shr_1 p r))
      by (rewrite IH by lia; apply Z.div_pos; lia).
    rewrite IH by lia. rewrite IH by lia.
    rewrite !Z.div_div by lia.
    f_equal. rewrite (Pos2Z.inj_xO p), Z.pow_twice_r. reflexivity.
  - rewrite shr_1_m by lia. reflexivity.
Qed.

Lemma shr_record_of_loc_m m l : shr_m (shr_record_of_loc m l) = m.
Proof. destruct l as [|[]]; reflexivity. Qed.

(** Shifting a positive mantissa to its format exponent leaves a positive
    mantissa. *)
Lemma shr_fexp_pos (m : positive) (e : Z) (l : location) :
  emin <= e ->
  0 < shr_m (fst (shr_fexp prec emax (Zpos m) e l)) /\
  emin <= snd (shr_fexp prec emax (Zpos m) e l).
Proof.
  intros He. unfold shr_fexp, shr. simpl Zdigits2.
  pose proof (digits2_lower m) as Hlo.
  set (d := Zpos (digits2_pos m)) in *.
  assert (Hd : 1 <= d) by (unfold d; lia).
  unfold fexp, SpecFloat.emin, prec, emax in *.
  destruct (Z.max (d + e - 53) (3 - 1024 - 53) - e) as [|n|n] eqn:En; simpl fst; simpl snd.
  - rewrite shr_record_of_loc_m. lia.
  - rewrite iter_shr_m by (rewrite shr_record_of_loc_m; lia).
    rewrite shr_record_of_loc_m. split; [|lia].
    apply Z.div_str_pos. split; [lia|].
    apply Z.le_trans with (2 ^ (d - 1)); [|exact Hlo].
    apply Z.pow_le_mono_r; lia.
  - rewrite shr_record_of_loc_m. lia.
Qed.

Lemma round_nearest_even_pos m l : 0 < m -> 0 < round_nearest_even m l.
Proof.
  intros Hm. unfold round_nearest_even.
  destruct l as [|[]]; try lia. destruct (Z.even m); lia.
Qed.

Lemma binary_round_aux_not_zero (s : bool) (m : positive) (e : Z) (l : location) :
  emin <= e ->
  forall z, binary_round_aux prec emax s (Zpos m) e l <> S754_zero z.
Proof.
  intros He z. unfold binary_round_aux.
  pose proof (shr_fexp_pos m e l He) as [H1 H2].
  destruct (shr_fexp prec emax (Zpos m) e l) as [mrs' e'].
  simpl fst in H1; simpl snd in H2.
  pose proof (round_nearest_even_pos _ (loc_of_shr_record mrs') H1) as Hr.
  destruct (round_nearest_even (shr_m mrs') (loc_of_shr_record mrs')) as [|r|r];
    try lia.
  pose proof (shr_fexp_pos r e' loc_Exact H2) as [H3 _].
  destruct (shr_fexp prec emax (Zpos r) e' loc_Exact) as [mrs'' e''].
  simpl fst in H3.
  destruct (shr_m mrs'') as [|q|q]; try lia.
  destruct (e'' <=? emax - prec); discriminate.
Qed.

Lemma shl_align_fst (m : positive) (e e' : Z) :
  Zpos (fst (shl_align m e e')) = Zpos m * 2 ^ (e - snd (shl_align m e e')) /\
  snd (shl_align m e e') = Z.min e e'.
Proof.
  unfold shl_align. destruct (e' - e) as [|d|d] eqn:Ed; simpl fst; simpl snd.
  - split; [|lia]. rewrite Z.sub_diag. simpl. lia.
  - split; [|lia]. rewrite Z.sub_diag. simpl. lia.
  - split; [|lia].
    change (Pos.iter xO m d) with (Zpower.shift_pos d m).
    rewrite Zpower.shift_pos_correct. replace (e - e') with (Zpos d) by lia.
    rewrite Z.pow_pos_fold. lia.
Qed.

Lemma binary_round_not_zero (s : bool) (m : positive) (e : Z) :
  emin <= e -> forall z, binary_round prec emax s m e <> S754_zero z.
Proof.
  intros He z. unfold binary_round.
  pose proof (shl_align_fst m e (fexp prec emax (Zpos (digits2_pos m) + e))) as [_ Hs].
  destruct (shl_align m e (fexp prec emax (Zpos (digits2_pos m) + e))) as [mz ez].
  simpl snd in Hs. apply binary_round_aux_not_zero.
  unfold fexp, SpecFloat.emin, prec, emax in *. lia.
Qed.

Lemma binary_normalize_not_zero (d e : Z) (sz : bool) :
  d <> 0 -> emin <= e -> forall z, binary_normalize prec emax d e sz <> S754_zero z.
Proof.
  intros Hd He z. destruct d as [|p|p]; [lia| |]; simpl;
    now apply binary_round_not_zero.
Qed.

Lemma valid_finite (m : positive) (e : Z) :
  valid_binary (S754_finite false m e) = true ->
  emin <= e /\ Zpos (digits2_pos m) <= prec /\
  (emin < e -> Zpos (digits2_pos m) = prec).
Proof.
  simpl. unfold bounded, canonical_mantissa, fexp, SpecFloat.emin, prec, emax.
  rewrite andb_true_iff, Z.eqb_eq, Z.leb_le. lia.
Qed.

(** Two valid finite numbers with different exponents have different aligned
    mantissas. *)
Lemma aligned_differ (mx my : positive) (ex ey : Z) :
  valid_binary (S754_finite false mx ex) = true ->
  valid_binary (S754_finite false my ey) = true ->
  ex < ey ->
  Zpos mx < Zpos my * 2 ^ (ey - ex).
Proof.
  intros Vx Vy Hlt.
  destruct (valid_finite mx ex Vx) as (Hex & Hdx & _).
  destruct (valid_finite my ey Vy) as (Hey & _ & Hdy).
  specialize (Hdy ltac:(lia)).
  pose proof (digits2_upper mx) as Ux. pose proof (digits2_lower my) as Ly.
  rewrite Hdy in Ly. unfold prec in *.
  assert (Zpos mx < 2 ^ 53).
  { apply Z.lt_le_trans with (2 ^ Zpos (digits2_pos mx)); [exact Ux|].
    apply Z.pow_le_mono_r; lia. }
  assert (2 <= 2 ^ (ey - ex)).
  { change 2 with (2 ^ 1) at 1. apply Z.pow_le_mono_r; lia. }
  assert (2 ^ 53 = 2 ^ (53 - 1) * 2) by reflexivity.
  nia.
Qed.

Lemma SFsub_not_zero (x y : spec_float) :
  valid_binary x = true -> valid_binary y = true ->
  SFeqb x y = false ->
  SFeqb (SFsub prec emax x y) (S754_zero false) = false.
Proof.
  intros Vx Vy Hne.
  assert (Hz : forall r, (forall z, r <> S754_zero z) -> SFeqb r (S754_zero false) = false).
  { intros r Hr.
    destruct r as [z|s| |s m e];
      [now destruct (Hr z) | now destruct s | reflexivity | now destruct s]. }
  destruct x as [sx|sx| |sx mx ex], y as [sy|sy| |sy my ey];
    try (apply Hz; intros z; simpl; repeat match goal with
                              | |- context [match ?b with _ => _ end] => destruct b
                              end; discriminate);
    try (simpl in Hne; discriminate).
  all: try (simpl; now destruct sx).
  (* finite - finite *)
  apply Hz. intros z. unfold SFsub.
  assert (Vx' : valid_binary (S754_finite false mx ex) = true) by exact Vx.
  assert (Vy' : valid_binary (S754_finite false my ey) = true) by exact Vy.
  destruct (valid_finite mx ex Vx') as (Hex & _).
  destruct (valid_finite my ey Vy') as (Hey & _).
  pose proof (shl_align_fst mx ex (Z.min ex ey)) as [Ax Sx].
  pose proof (shl_align_fst my ey (Z.min ex ey)) as [Ay Sy].
  rewrite Sx in Ax. rewrite Sy in Ay.
  apply binary_normalize_not_zero; [|lia].
  rewrite Ax, Ay. clear Ax Ay Sx Sy.
  assert (Hdiff : Zpos mx * 2 ^ (ex - Z.min ex (Z.min ex ey))
                  <> Zpos my * 2 ^ (ey - Z.min ey (Z.min ex ey)) \/ sx <> sy).
  { destruct (Bool.bool_dec sx sy) as [->|Hs]; [left|now right].
    unfold SFeqb, SFcompare in Hne.
    destruct (Z.compare_spec ex ey) as [E|L|G].
    - subst ey. replace (ex - Z.min ex (Z.min ex ex)) with 0 by lia.
      simpl. intros Heq.
      assert (mx = my) by lia. subst my.
      destruct sy; rewrite ?Pos.compare_cont_refl in Hne; simpl in Hne; discriminate.
    - pose proof (aligned_differ mx my ex ey Vx' Vy' L).
      replace (ex - Z.min ex (Z.min ex ey)) with 0 by lia.
      replace (ey - Z.min ey (Z.min ex ey)) with (ey - ex) by lia.
      simpl (2 ^ 0). lia.
    - pose proof (aligned_differ my mx ey ex Vy' Vx' G).
      replace (ey - Z.min ey (Z.min ex ey)) with 0 by lia.
      replace (ex - Z.min ex (Z.min ex ey)) with (ex - ey) by lia.
      simpl (2 ^ 0). lia. }
  assert (Px : 0 < Zpos mx * 2 ^ (ex - Z.min ex (Z.min ex ey)))
    by (apply Z.mul_pos_pos; [lia | apply Z.pow_pos_nonneg; lia]).
  assert (Py : 0 < Zpos my * 2 ^ (ey - Z.min ey (Z.min ex ey)))
    by (apply Z.mul_pos_pos; [lia | apply Z.pow_pos_nonneg; lia]).
  destruct sx, sy; unfold cond_Zopp; destruct Hdiff as [Hd|Hd]; try lia; congruence.
Qed.

(** On binary64, [x != y] implies [x - y != 0]. *)
Lemma float_sub_separates (x y : float) :
  PrimFloat.eqb x y = false -> PrimFloat.eqb (x - y)%float 0%float = false.
Proof.
  rewrite !eqb_spec, sub_spec. intros Hne.
  change (Prim2SF 0) with (S754_zero false).
  apply SFsub_not_zero; auto using Prim2SF_valid.
Qed.

#[export] Instance binary64_separates : SubtractionSeparates float.
Proof.
  intros x y Hxy. change (of_int 0) with 0%float.
  now apply float_sub_separates.
Qed.
End Binary64Subtraction.

(* ================================================================== *)
(** ** map_1.py: calibration *)

Section CalibrationAnyArithmetic.
Context {F : Type} `{Arith F}.
Import Map1.

Lemma is_ready_points (gm : GeoMapper F) :
  is_ready gm = true ->
  exists a b, p1 gm = Some a /\ p2 gm = Some b /\
    fneb (px b) (px a) = true /\ fneb (py b) (py a) = true /\
    fneb (lon b) (lon a) = true /\ fneb (lat b) (lat a) = true.
Proof.
  unfold is_ready. destruct (p1 gm) as [a|], (p2 gm) as [b|]; try discriminate.
  rewrite !andb_true_iff. intros [[[Hx Hy] Hlo] Hla].
  exists a, b. repeat split; assumption.
Qed.

Lemma not_ready_px_to_ll (gm : GeoMapper F) (x y : F) :
  is_ready gm = false -> px_to_ll gm x y = Raise not_calibrated.
Proof. intros E. unfold px_to_ll. now rewrite E. Qed.

Lemma not_ready_ll_to_px (gm : GeoMapper F) (la lo : F) :
  is_ready gm = false -> ll_to_px gm la lo = Raise not_calibrated.
Proof. intros E. unfold ll_to_px. now rewrite E. Qed.

(** Whatever the pair, [set_points] stores it and returns. *)
Lemma set_points_stores (gm : GeoMapper F) (a b : CalPoint F) :
  set_points gm a b = Ok (mkGeoMapper (Some a) (Some b)).
Proof. reflexivity. Qed.

Lemma degenerate_not_ready (a b : CalPoint F) :
  degenerate a b = true -> is_ready (mkGeoMapper (Some a) (Some b)) = false.
Proof. unfold degenerate, is_ready; simpl. now rewrite negb_true_iff. Qed.

(** C9, as the code has it.  [set_points] never signals anything: for every
    pair, degenerate or not, it stores both points.  A degenerate pair
    leaves the mapper not ready, so the failure is the not-calibrated
    RuntimeError of the next conversion; the interactive caller
    [pick_calibration_pixel] looks at [is_ready] right after [set_points]
    and reports an invalid calibration, with the pair still stored. *)
Theorem degenerate_pair_is_stored_and_fails_at_first_use
  (gm : GeoMapper F) (a b : CalPoint F) :
  exists gm',
    set_points gm a b = Ok gm' /\ p1 gm' = Some a /\ p2 gm' = Some b /\
    (degenerate a b = true ->
       is_ready gm' = false /\
       (forall x y, px_to_ll gm' x y = Raise not_calibrated) /\
       (forall la lo, ll_to_px gm' la lo = Raise not_calibrated) /\
       pick_calibration_pixel (mkGeoMapper (Some a) None) 2 b
         = Ok (gm', Calibration_invalid)).
Proof.
  exists (mkGeoMapper (Some a) (Some b)). repeat split.
  - now apply degenerate_not_ready.
  - intros x y. apply not_ready_px_to_ll. now apply degenerate_not_ready.
  - intros la lo. apply not_ready_ll_to_px. now apply degenerate_not_ready.
  - unfold pick_calibration_pixel; simpl.
    now rewrite (degenerate_not_ready a b).
Qed.

Section Separating.
Context `{!SubtractionSeparates F}.

Lemma ready_truediv (x p q : F) :
  fneb p q = true -> x /! (p -! q) = Ok (fquo x (p -! q)).
Proof.
  unfold fneb, truediv. rewrite negb_true_iff. intros E.
  now rewrite (sub_separates p q E).
Qed.

Lemma ready_px_to_ll (gm : GeoMapper F) (x y : F) :
  is_ready gm = true ->
  exists a b, p1 gm = Some a /\ p2 gm = Some b /\
    px_to_ll gm x y =
      Ok (lat a +! fquo ((y -! py a) *! (lat b -! lat a)) (py b -! py a),
          lon a +! fquo ((x -! px a) *! (lon b -! lon a)) (px b -! px a)).
Proof.
  intros Hr. destruct (is_ready_points gm Hr) as (a & b & Ha & Hb & Hx & Hy & _).
  exists a, b. repeat split; try assumption.
  unfold px_to_ll. rewrite Hr, Ha, Hb. simpl.
  rewrite (ready_truediv _ _ _ Hx). simpl.
  now rewrite (ready_truediv _ _ _ Hy).
Qed.

Lemma ready_ll_to_px (gm : GeoMapper F) (la lo : F) :
  is_ready gm = true ->
  exists a b, p1 gm = Some a /\ p2 gm = Some b /\
    ll_to_px gm la lo =
      Ok (px a +! fquo ((lo -! lon a) *! (px b -! px a)) (lon b -! lon a),
          py a +! fquo ((la -! lat a) *! (py b -! py a)) (lat b -! lat a)).
Proof.
  intros Hr.
  destruct (is_ready_points gm Hr) as (a & b & Ha & Hb & _ & _ & Hlo & Hla).
  exists a, b. repeat split; try assumption.
  unfold ll_to_px. rewrite Hr, Ha, Hb. simpl.
  rewrite (ready_truediv _ _ _ Hlo). simpl.
  now rewrite (ready_truediv _ _ _ Hla).
Qed.

(** C10.  For a ready calibration the latitude [px_to_ll] returns is a
    function of [py] alone and the longitude a function of [px] alone;
    dually the [px] that [ll_to_px] returns is a function of [lon] alone and
    the [py] a function of [lat] alone.  Two calls with the same [py]
    therefore return the same latitude whatever their [px], and so on. *)
Theorem calibration_axes_are_independent (gm : GeoMapper F) :
  is_ready gm = true ->
  exists lat_of lon_of px_of py_of : F -> F,
    (forall x y, px_to_ll gm x y = Ok (lat_of y, lon_of x)) /\
    (forall la lo, ll_to_px gm la lo = Ok (px_of lo, py_of la)) /\
    (forall x x' y, rmap fst (px_to_ll gm x y) = rmap fst (px_to_ll gm x' y)) /\
    (forall x y y', rmap snd (px_to_ll gm x y) = rmap snd (px_to_ll gm x y')) /\
    (forall la la' lo,
       rmap fst (ll_to_px gm la lo) = rmap fst (ll_to_px gm la' lo)) /\
    (forall la lo lo',
       rmap snd (ll_to_px gm la lo) = rmap snd (ll_to_px gm la lo')).
Proof.
  intros Hr.
  destruct (is_ready_points gm Hr) as (a & b & Ha & Hb & Hx & Hy & Hlo & Hla).
  exists (fun y => lat a +! fquo ((y -! py a) *! (lat b -! lat a)) (py b -! py a)),
         (fun x => lon a +! fquo ((x -! px a) *! (lon b -! lon a)) (px b -! px a)),
         (fun lo => px a +! fquo ((lo -! lon a) *! (px b -! px a)) (lon b -! lon a)),
         (fun la => py a +! fquo ((la -! lat a) *! (py b -! py a)) (lat b -! lat a)).
  assert (P : forall x y,
             px_to_ll gm x y =
             Ok (lat a +! fquo ((y -! py a) *! (lat b -! lat a)) (py b -! py a),
                 lon a +! fquo ((x -! px a) *! (lon b -! lon a)) (px b -! px a))).
  { intros x y. unfold px_to_ll. rewrite Hr, Ha, Hb. simpl.
    rewrite (ready_truediv _ _ _ Hx). simpl.
    now rewrite (ready_truediv _ _ _ Hy). }
  assert (Q : forall la lo,
             ll_to_px gm la lo =
             Ok (px a +! fquo ((lo -! lon a) *! (px b -! px a)) (lon b -! lon a),
                 py a +! fquo ((la -! lat a) *! (py b -! py a)) (lat b -! lat a))).
  { intros la lo. unfold ll_to_px. rewrite Hr, Ha, Hb. simpl.
    rewrite (ready_truediv _ _ _ Hlo). simpl.
    now rewrite (ready_truediv _ _ _ Hla). }
  split; [exact P|]. split; [exact Q|].
  repeat split; intros; rewrite ?P, ?Q; reflexivity.
Qed.

(** C3.  [is_ready] holds exactly when both points are set and their pixel
    x, pixel y, longitude and latitude each differ.  [px_to_ll] and
    [ll_to_px] raise the not-calibrated RuntimeError exactly when [is_ready]
    is false, and when it is true both return a pair: the two divisors are
    differences of coordinates [is_ready] found different, so no
    ZeroDivisionError is possible. *)
Theorem conversions_fail_iff_not_ready (gm : GeoMapper F) (x y : F) :
  (is_ready gm = true <->
     exists a b, p1 gm = Some a /\ p2 gm = Some b /\
       fneb (px b) (px a) = true /\ fneb (py b) (py a) = true /\
       fneb (lon b) (lon a) = true /\ fneb (lat b) (lat a) = true) /\
  (px_to_ll gm x y = Raise not_calibrated <-> is_ready gm = false) /\
  (ll_to_px gm x y = Raise not_calibrated <-> is_ready gm = false) /\
  (is_ready gm = true ->
     (exists r, px_to_ll gm x y = Ok r) /\ (exists r, ll_to_px gm x y = Ok r)).
Proof.
  split.
  { split; [apply is_ready_points|].
    intros (a & b & Ha & Hb & Hx & Hy & Hlo & Hla).
    unfold is_ready. now rewrite Ha, Hb, Hx, Hy, Hlo, Hla. }
  destruct (is_ready gm) eqn:Hr.
  - destruct (ready_px_to_ll gm x y Hr) as (a & b & _ & _ & E).
    destruct (ready_ll_to_px gm x y Hr) as (a' & b' & _ & _ & E').
    rewrite E, E'. repeat split; intros; try discriminate; eauto.
  - rewrite (not_ready_px_to_ll gm x y Hr), (not_ready_ll_to_px gm x y Hr).
    repeat split; intros; try reflexivity; discriminate.
Qed.
End Separating.
End CalibrationAnyArithmetic.

(** *** The round trip through a calibration *)

Section CalibrationExact.
Import Map1.
Local Open Scope R_scope.

Lemma cal_field_ready : is_ready cal_field = true.
Proof.
  unfold is_ready, cal_field; simpl p1; simpl p2; cbv iota beta.
  rewrite !andb_true_iff. repeat split; apply exact_fneb; simpl; lra.
Qed.

(** In exact arithmetic the two maps of a ready calibration are inverse of
    each other. *)
Lemma pixel_round_trip_exact (gm : GeoMapper R) (x y : R) :
  is_ready gm = true ->
  exists la lo,
    px_to_ll gm x y = Ok (la, lo) /\ ll_to_px gm la lo = Ok (x, y).
Proof.
  intros Hr.
  destruct (is_ready_points gm Hr) as (a & b & Ha & Hb & Hx & Hy & Hlo & Hla).
  destruct (ready_px_to_ll gm x y Hr) as (a1 & b1 & Ha1 & Hb1 & E).
  rewrite Ha in Ha1; rewrite Hb in Hb1.
  injection Ha1 as <-; injection Hb1 as <-.
  eexists; eexists; split; [exact E|].
  destruct (ready_ll_to_px gm
              (lat a +! fquo ((y -! py a) *! (lat b -! lat a)) (py b -! py a))
              (lon a +! fquo ((x -! px a) *! (lon b -! lon a)) (px b -! px a)) Hr)
    as (a2 & b2 & Ha2 & Hb2 & E2).
  rewrite Ha in Ha2; rewrite Hb in Hb2.
  injection Ha2 as <-; injection Hb2 as <-.
  rewrite E2. apply exact_fneb in Hx, Hy, Hlo, Hla.
  simpl. f_equal. f_equal; field; lra.
Qed.

(** On binary64 the round trip of a ready calibration returns a pixel:
    neither conversion raises. *)
Lemma pixel_round_trip_returns (gm : GeoMapper float) (x y : float) :
  is_ready gm = true ->
  exists la lo x' y',
    px_to_ll gm x y = Ok (la, lo) /\ ll_to_px gm la lo = Ok (x', y').
Proof.
  intros Hr.
  destruct (ready_px_to_ll gm x y Hr) as (a & b & _ & _ & E).
  destruct (ready_ll_to_px gm
              (lat a +! fquo ((y -! py a) *! (lat b -! lat a)) (py b -! py a))
              (lon a +! fquo ((x -! px a) *! (lon b -! lon a)) (px b -! px a)) Hr)
    as (a' & b' & _ & _ & E').
  rewrite E. do 4 eexists. split; [reflexivity | exact E'].
Qed.

(** C7, as the code has it.  For a ready calibration and any pixel,
    [px_to_ll] followed by [ll_to_px] returns the pixel it started from when
    the arithmetic is exact.  On binary64 the round trip returns a pixel
    too, but one that differs from the original by the rounding of the
    eight operations in between, see [pixel_round_trip_binary64]. *)
Theorem pixel_round_trip :
  (forall (gm : GeoMapper R) (x y : R),
     is_ready gm = true ->
     exists la lo,
       px_to_ll gm x y = Ok (la, lo) /\ ll_to_px gm la lo = Ok (x, y)) /\
  (forall (gm : GeoMapper float) (x y : float),
     is_ready gm = true ->
     exists la lo x' y',
       px_to_ll gm x y = Ok (la, lo) /\ ll_to_px gm la lo = Ok (x', y')).
Proof.
  split.
  - exact pixel_round_trip_exact.
  - exact pixel_round_trip_returns.
Qed.

Lemma pixel_round_trip_witness :
  exists la lo,
    px_to_ll cal_field 512 300 = Ok (la, lo) /\
    ll_to_px cal_field la lo = Ok (512, 300).
Proof.
  apply (proj1 pixel_round_trip cal_field 512 300 cal_field_ready).
Defined.

(** C7 fails on binary64.  The calibration [cal_close] is ready; the pixel
    (512.3, 300.7) comes back as (512.2999978513187, 300.69999934665594):
    the x coordinate is off by more than 2^-19, which is above 1e-6. *)
Lemma pixel_round_trip_binary64 :
  is_ready cal_close = true /\
  exists (la lo x' y' : float),
    px_to_ll cal_close 512.3%float 300.7%float = Ok (la, lo) /\
    ll_to_px cal_close la lo = Ok (x', y') /\
    PrimFloat.ltb 0x1p-19%float (PrimFloat.abs (x' - 512.3))%float = true.
Proof.
  split; [vm_compute; reflexivity|].
  exists 27.3750001007%float, (-82.4530004123)%float,
         512.2999978513187%float, 300.69999934665594%float.
  repeat split; vm_compute; reflexivity.
Qed.

(** A coordinate that overflows: with the ready calibration [cal_unit]
    (one pixel per ten degrees) the pixel 1e308 maps to an infinite
    longitude and comes back as an infinite pixel. *)
Lemma pixel_round_trip_overflow :
  is_ready cal_unit = true /\
  px_to_ll cal_unit 1e308%float 0%float = Ok (0%float, infinity) /\
  ll_to_px cal_unit 0%float infinity = Ok (infinity, 0%float).
Proof. repeat split; vm_compute; reflexivity. Qed.
End CalibrationExact.

(* ================================================================== *)
(** ** map_2.py: clamping, snapping and the offset bookkeeping *)

(** *** Rounding to the nearest integer on the reals *)

Section RoundingExact.
Local Open Scope R_scope.





End RoundingExact.

(** *** The editor's helpers in exact arithmetic *)

Section GridExact.
Import Map2.
Local Open Scope R_scope.










End GridExact.

(** *** The offset invariant and the clamping of the final position *)

Section EntityExact.
Import Map2.
Local Open Scope R_scope.





End EntityExact.

(** *** The same calls on binary64 *)

Section EntityBinary64.
Import Map2.
Local Open Scope float_scope.

Lemma item0_is_first_waypoint :
  add_waypoint_center false [] = Ok item0 /\
  add_waypoint_center true [] = Ok item0.
Proof. split; vm_compute; reflexivity. Qed.



Lemma ltb_leb (x y : float) : (x <? y) = true -> (x <=? y) = true.
Proof.
  rewrite ltb_spec, leb_spec. unfold SFltb, SFleb.
  destruct (SFcompare (Prim2SF x) (Prim2SF y)) as [[]|]; congruence.
Qed.

(** [clamp] to the box returns a point of the box for every binary64
    input, NaN included ([min(hi, nan)] is [hi]). *)
Lemma clamp_binary64_in_box (v : float) :
  (-50 <=? clamp v (-50) 50) = true /\ (clamp v (-50) 50 <=? 50) = true.
Proof.
  unfold clamp, pymax, pymin; simpl fltb.
  destruct (v <? 50) eqn:Hhi.
  - destruct (-50 <? v) eqn:Hlo.
    + split; now apply ltb_leb.
    + split; vm_compute; reflexivity.
  - split; vm_compute; reflexivity.
Qed.


End EntityBinary64.

(** *** The two statements, on both arithmetics *)

Section EntityClaims.
Import Map2.


End EntityClaims.

(* ================================================================== *)
(** ** The division by [m_per_deg_lon], in any arithmetic *)

Section GuardAnyArithmetic.
Context {F : Type} `{Libm F}.

(** map_2 tests [m_per_deg_lon != 0] before it divides: with a zero
    [m_per_deg_lon] the longitude offset is the literal [0.0]. *)
Lemma map2_meters_to_latlon_guarded (olat olon e n : F) :
  (snd (Map2.meters_per_deg olat) ==! of_int 0) = true ->
  Map2.meters_to_latlon olat olon e n
    = (dlat <- n /! of_int 111320 ;; Ok (olat +! dlat, olon +! of_int 0)).
Proof.
  simpl snd. intros Hz. unfold Map2.meters_to_latlon, Map2.meters_per_deg.
  unfold fneb. now rewrite Hz.
Qed.

(** map_4 divides without a test: with a zero [m_lon] the quotient
    [x_m / m_lon] raises, whatever the other arguments. *)
Lemma map4_local_xy_to_latlon_unguarded (olat olon x_m y_m : F) :
  (snd (Map4.get_meters_per_deg olat) ==! of_int 0) = true ->
  ~ exists r, Map4.local_xy_to_latlon olat olon x_m y_m = Ok r.
Proof.
  simpl snd. intros Hz [r Hr].
  unfold Map4.local_xy_to_latlon, Map4.get_meters_per_deg in Hr.
  destruct (y_m /! of_int 111320) as [q|e]; simpl in Hr; [|discriminate].
  unfold truediv in Hr. rewrite Hz in Hr. discriminate.
Qed.
End GuardAnyArithmetic.

(* ================================================================== *)
(** ** Degrees and metres, in exact arithmetic *)

Section GeoExact.
Local Open Scope R_scope.

Lemma PI_neq0' : PI <> 0.
Proof. pose proof PI_RGT_0. lra. Qed.






(** Away from the poles the cosine of the latitude is positive. *)
Lemma cos_latitude_pos (la : R) : -90 < la < 90 -> 0 < cos (m_radians la).
Proof.
  intros [Hlo Hhi]. simpl. pose proof PI_RGT_0 as Hpi.
  apply cos_gt_0; nra.
Qed.


(** *** map_2: [meters_to_latlon] and [latlon_to_meters] *)

Lemma map2_meters_per_deg (olat : R) :
  Map2.meters_per_deg olat = (111320, 111320 * cos (m_radians olat)).
Proof. reflexivity. Qed.

(** The guard of map_2's [meters_to_latlon]: with a zero
    [m_per_deg_lon] the longitude is the origin's and nothing is raised;
    otherwise it is [origin_lon + east_m / m_per_deg_lon]. *)
Lemma map2_meters_to_latlon_guard (olat olon e n : R) :
  let m_lon := snd (Map2.meters_per_deg olat) in
  (m_lon = 0 ->
     Map2.meters_to_latlon olat olon e n = Ok (olat + n / 111320, olon + 0)) /\
  (m_lon <> 0 ->
     Map2.meters_to_latlon olat olon e n
       = Ok (olat + n / 111320, olon + e / m_lon)).
Proof.
  simpl snd. unfold Map2.meters_to_latlon. rewrite map2_meters_per_deg.
  rewrite exact_truediv by lra. cbn [bind]. split; intros Hm.
  - assert (E : fneb (111320 * cos (m_radians olat)) (of_int 0) = false).
    { unfold fneb; simpl. apply negb_false_iff. now apply Reqb_true. }
    rewrite E. reflexivity.
  - assert (E : fneb (111320 * cos (m_radians olat)) (of_int 0) = true)
      by now apply exact_fneb.
    rewrite E. rewrite exact_truediv by exact Hm. reflexivity.
Qed.



(** [meters_to_latlon] adds the offsets to the origin and bounds nothing:
    two degrees north of latitude 89 is "latitude" 91. *)
Lemma meters_to_latlon_leaves_the_bounds :
  exists la lo, Map2.meters_to_latlon 89 0 0 222640 = Ok (la, lo) /\ 90 < la.
Proof.
  assert (Hc : 0 < cos (m_radians 89)) by (apply cos_latitude_pos; lra).
  destruct (map2_meters_to_latlon_guard 89 0 0 222640) as [_ Hg].
  simpl in Hg, Hc. rewrite Hg by nra.
  eexists; eexists; split; [reflexivity|]. lra.
Qed.

(** *** map_4 and map_6: the same conversion without the guard *)

Lemma map4_local_xy_to_latlon_exact (olat olon x_m y_m : R) :
  let m_lon := snd (Map4.get_meters_per_deg olat) in
  (m_lon = 0 ->
     Map4.local_xy_to_latlon olat olon x_m y_m = Raise ZeroDivisionError) /\
  (m_lon <> 0 ->
     Map4.local_xy_to_latlon olat olon x_m y_m
       = Ok (olat + y_m / 111320, olon + x_m / m_lon)).
Proof.
  simpl snd. unfold Map4.local_xy_to_latlon, Map4.get_meters_per_deg.
  rewrite exact_truediv by (simpl; lra). cbn [bind]. split; intros Hm.
  - simpl fmul. simpl of_int. rewrite Hm. now rewrite exact_truediv_zero.
  - rewrite exact_truediv by exact Hm. reflexivity.
Qed.


Lemma map6_origin_lat : Map6.ORIGIN_LAT = 27375634 / 1000000.
Proof. unfold Map6.ORIGIN_LAT, decimal. simpl. lra. Qed.

(** map_6 divides by the [m_lon] of its fixed origin, which is not zero. *)
Lemma map6_meters_to_latlon_exact (e n : R) :
  Map6.meters_to_latlon e n
    = Ok (Map6.ORIGIN_LAT + n / 111320,
          Map6.ORIGIN_LON + e / (111320 * cos (m_radians Map6.ORIGIN_LAT))).
Proof.
  assert (Hc : 0 < cos (m_radians Map6.ORIGIN_LAT)).
  { apply cos_latitude_pos. rewrite map6_origin_lat. lra. }
  assert (Hm : of_int 111320 *! m_cos (m_radians Map6.ORIGIN_LAT) <> 0).
  { change (111320 * cos (m_radians Map6.ORIGIN_LAT) <> 0). nra. }
  unfold Map6.meters_to_latlon.
  rewrite exact_truediv by (simpl; lra). cbn [bind].
  rewrite exact_truediv by exact Hm. reflexivity.
Qed.
End GeoExact.

(* ================================================================== *)
(** ** The forward geodesic, in exact arithmetic *)

Section GeodesicExact.
Local Open Scope R_scope.

Lemma unit_combination_bound (sa ca sd cd ct : R) :
  sa * sa + ca * ca = 1 -> sd * sd + cd * cd = 1 -> -1 <= ct <= 1 ->
  -1 <= sa * cd + ca * sd * ct <= 1.
Proof.
  intros Ha Hd [Ht1 Ht2].
  assert (E : 1 - (sa * cd + ca * sd * ct) * (sa * cd + ca * sd * ct)
              = (sa * sd * ct - ca * cd) * (sa * sd * ct - ca * cd)
                + sd * sd * ((1 - ct) * (1 + ct))).
  { transitivity ((sa * sa + ca * ca) * (sd * sd + cd * cd)
                  - (sa * cd + ca * sd * ct) * (sa * cd + ca * sd * ct)).
    - rewrite Ha, Hd. ring.
    - transitivity ((sa * sd * ct - ca * cd) * (sa * sd * ct - ca * cd)
                    + sd * sd * ((1 - ct) * (1 + ct)) * (sa * sa + ca * ca)).
      + ring.
      + rewrite Ha. ring. }
  pose proof (Rle_0_sqr (sa * sd * ct - ca * cd)) as H1. unfold Rsqr in H1.
  pose proof (Rle_0_sqr sd) as H2. unfold Rsqr in H2.
  assert (H3 : 0 <= (1 - ct) * (1 + ct)) by (apply Rmult_le_pos; lra).
  pose proof (Rmult_le_pos _ _ H2 H3) as H4.
  assert (Hsq : (sa * cd + ca * sd * ct) * (sa * cd + ca * sd * ct) <= 1) by lra.
  split; nra.
Qed.

(** The argument of [asin] in the formula is a sine-like combination: it
    stays in [-1, 1]. *)
Lemma geodesic_arg_bound (a d t : R) :
  -1 <= sin a * cos d + cos a * sin d * cos t <= 1.
Proof.
  apply unit_combination_bound.
  - apply sin2_cos2.
  - apply sin2_cos2.
  - apply COS_bound.
Qed.

Lemma math_asin_exact (x : R) : -1 <= x <= 1 -> math_asin x = Ok (asin x).
Proof.
  intros [Hlo Hhi]. unfold math_asin. simpl fltb. simpl of_int.
  assert (E1 : Rltb x (-1) = false) by (apply Rltb_false; lra).
  assert (E2 : Rltb 1 x = false) by (apply Rltb_false; lra).
  now rewrite E1, E2.
Qed.

Lemma atan_pos (x : R) : 0 < x -> 0 < atan x.
Proof. intros Hx. rewrite <- atan_0. now apply atan_increasing. Qed.

Lemma atan_neg (x : R) : x < 0 -> atan x < 0.
Proof. intros Hx. rewrite <- atan_0. now apply atan_increasing. Qed.

Lemma Ratan2_bound (y x : R) : - PI <= Ratan2 y x <= PI.
Proof.
  pose proof PI_RGT_0 as Hpi. unfold Ratan2.
  destruct (Rlt_dec 0 x) as [Hx|Hx].
  - pose proof (atan_bound (y / x)). lra.
  - destruct (Rlt_dec x 0) as [Hx'|Hx'].
    + pose proof (atan_bound (y / x)) as Hb.
      destruct (Rle_dec 0 y) as [Hy|Hy].
      * destruct (Req_dec_T y 0) as [->|Hy0].
        -- replace (0 / x) with 0 by (field; lra). rewrite atan_0. lra.
        -- assert (y / x < 0).
           { unfold Rdiv. apply Rmult_pos_neg; [lra|]. now apply Rinv_lt_0_compat. }
           pose proof (atan_neg _ H). lra.
      * assert (0 < y / x).
        { unfold Rdiv. apply Rmult_neg_neg; [lra|]. now apply Rinv_lt_0_compat. }
        pose proof (atan_pos _ H). lra.
    + destruct (Rlt_dec 0 y); [lra|]. destruct (Rlt_dec y 0); lra.
Qed.


(** The value [calculate_forward_geodesic] returns: the domain check of
    [math.asin] always passes, and [R_EARTH] is not zero. *)
Lemma forward_geodesic_exact (lat1 lon1 bearing distance : R) :
  let phi1 := m_radians lat1 in
  let theta := m_radians bearing in
  let delta := distance / 6371000 in
  let phi2 := asin (sin phi1 * cos delta + cos phi1 * sin delta * cos theta) in
  Map4.calculate_forward_geodesic lat1 lon1 bearing distance
    = Ok (m_degrees phi2,
          m_degrees (m_radians lon1
                     + Ratan2 (sin theta * sin delta * cos phi1)
                              (cos delta - sin phi1 * sin phi2))).
Proof.
  intros phi1 theta delta phi2. unfold Map4.calculate_forward_geodesic.
  unfold Map4.R_EARTH. rewrite exact_truediv by (simpl; lra). cbn [bind].
  match goal with
  | |- context [math_asin ?a] =>
      change a with (sin phi1 * cos delta + cos phi1 * sin delta * cos theta)
  end.
  rewrite math_asin_exact by apply geodesic_arg_bound.
  reflexivity.
Qed.



Lemma degrees_bound (t b : R) :
  - b <= t <= b -> - (b * (180 / PI)) <= m_degrees t <= b * (180 / PI).
Proof.
  intros [Hlo Hhi]. simpl.
  assert (Hk : 0 < 180 / PI).
  { apply Rdiv_lt_0_compat; [lra | apply PI_RGT_0]. }
  split; nra.
Qed.

(** Latitude in [-90, 90]; longitude within 180 degrees of the start. *)
Lemma forward_geodesic_bounds (lat1 lon1 bearing distance : R) :
  exists lat2 lon2,
    Map4.calculate_forward_geodesic lat1 lon1 bearing distance = Ok (lat2, lon2) /\
    -90 <= lat2 <= 90 /\ lon1 - 180 <= lon2 <= lon1 + 180.
Proof.
  rewrite forward_geodesic_exact. eexists; eexists; split; [reflexivity|].
  pose proof PI_neq0' as Hpi.
  split.
  - match goal with |- context [asin ?a] => pose proof (asin_bound a) as Hb end.
    assert (Hb' : - (PI / 2) <= asin
        (sin (m_radians lat1) * cos (distance / 6371000) +
         cos (m_radians lat1) * sin (distance / 6371000) * cos (m_radians bearing))
        <= PI / 2) by lra.
    apply degrees_bound in Hb'.
    replace (PI / 2 * (180 / PI)) with 90 in Hb' by (field; exact Hpi).
    exact Hb'.
  - match goal with
    | |- context [Ratan2 ?y ?x] =>
        pose proof (Ratan2_bound y x) as Hb; set (t := Ratan2 y x) in *
    end.
    apply degrees_bound in Hb.
    replace (PI * (180 / PI)) with 180 in Hb by (field; exact Hpi).
    replace (m_degrees (m_radians lon1 + t)) with (lon1 + m_degrees t)
      by (simpl; field; exact Hpi).
    lra.
Qed.



End GeodesicExact.

(* ================================================================== *)
(** ** Concrete instances *)

Section Instances.
Import Map1.

Lemma calibration_axes_are_independent_witness :
  exists lat_of lon_of px_of py_of : float -> float,
    (forall x y, px_to_ll cal_unit x y = Ok (lat_of y, lon_of x)) /\
    (forall la lo, ll_to_px cal_unit la lo = Ok (px_of lo, py_of la)) /\
    (forall x x' y,
       rmap fst (px_to_ll cal_unit x y) = rmap fst (px_to_ll cal_unit x' y)) /\
    (forall x y y',
       rmap snd (px_to_ll cal_unit x y) = rmap snd (px_to_ll cal_unit x y')) /\
    (forall la la' lo,
       rmap fst (ll_to_px cal_unit la lo) = rmap fst (ll_to_px cal_unit la' lo)) /\
    (forall la lo lo',
       rmap snd (ll_to_px cal_unit la lo) = rmap snd (ll_to_px cal_unit la lo')).
Proof.
  apply (calibration_axes_are_independent cal_unit). vm_compute. reflexivity.
Defined.

Lemma conversions_fail_iff_not_ready_witness :
  (exists r, px_to_ll cal_close 512.3%float 300.7%float = Ok r) /\
  (exists r, ll_to_px cal_close 512.3%float 300.7%float = Ok r).
Proof.
  apply (conversions_fail_iff_not_ready (F:=float) cal_close
           512.3%float 300.7%float).
  vm_compute. reflexivity.
Defined.

(** C9 fails.  Two calibration points with the same pixel x: [set_points]
    returns normally with the pair stored. *)
Lemma degenerate_pair_stored_silently :
  let a := mkCalPoint 0%float 0%float 0%float 0%float in
  let b := mkCalPoint 0%float 5%float 1%float 1%float in
  degenerate a b = true /\
  set_points init a b = Ok (mkGeoMapper (Some a) (Some b)).
Proof. split; vm_compute; reflexivity. Qed.
End Instances.


(* ================================================================== *)
(** ** map_1.py: the window *)

Section WindowAnyArithmetic.
Context {F : Type} `{Arith F}.
Import Map1 Map1UI.

Lemma reindex_length (i : nat) (ps : list (DraggablePoint F)) :
  length (reindex i ps) = length ps.
Proof. revert i; induction ps as [|p ps IH]; intros i; simpl; [|rewrite IH]; reflexivity. Qed.

Lemma reindex_idx (i : nat) (ps : list (DraggablePoint F)) :
  map idx (reindex i ps) = map Z.of_nat (seq i (length ps)).
Proof.
  revert i; induction ps as [|p ps IH]; intros i; simpl; [reflexivity|].
  now rewrite IH.
Qed.

Lemma reindex_pos (i : nat) (ps : list (DraggablePoint F)) :
  map pos (reindex i ps) = map pos ps.
Proof.
  revert i; induction ps as [|p ps IH]; intros i; simpl; [reflexivity|].
  now rewrite IH.
Qed.

Lemma drag_idx (ps : list (DraggablePoint F)) (i : nat) (p : F * F) :
  map idx (drag ps i p) = map idx ps /\ length (drag ps i p) = length ps.
Proof.
  revert i; induction ps as [|q ps IH]; intros [|i]; simpl; try (split; reflexivity).
  destruct (IH i) as [E1 E2]. now rewrite E1, E2.
Qed.

(** The points are numbered by their position in the list. *)
Lemma indexed_app (ps : list (DraggablePoint F)) (p : F * F) :
  map idx ps = map Z.of_nat (seq 0 (length ps)) ->
  map idx (ps ++ [mkPoint p (Z.of_nat (length ps))])
    = map Z.of_nat (seq 0 (length (ps ++ [mkPoint p (Z.of_nat (length ps))]))).
Proof.
  intros E. rewrite length_app, Nat.add_1_r, seq_S, !map_app, E. reflexivity.
Qed.

Lemma add_waypoint_center_indexed (w : MainWindow F) :
  map idx (points w) = map Z.of_nat (seq 0 (length (points w))) ->
  map idx (points (add_waypoint_center w))
    = map Z.of_nat (seq 0 (length (points (add_waypoint_center w)))).
Proof.
  intros E. unfold add_waypoint_center.
  destruct (image_item w) as [[x y]|]; [|exact E].
  simpl. now apply indexed_app.
Qed.

Lemma do_op_indexed (w w' : MainWindow F) (o : op F) :
  map idx (points w) = map Z.of_nat (seq 0 (length (points w))) ->
  do_op w o = Done w' ->
  map idx (points w') = map Z.of_nat (seq 0 (length (points w'))).
Proof.
  intros E. destruct o as [pix|which cp| |i p|data]; simpl.
  - intros [= <-]. destruct pix as [c|]; simpl; [|exact E].
    now apply add_waypoint_center_indexed.
  - unfold pick. destruct (pick_calibration_pixel (geomap w) which cp) as [[g st]|e];
      simpl; [|discriminate].
    intros [= <-]. exact E.
  - intros [= <-]. now apply add_waypoint_center_indexed.
  - intros [= <-]. simpl. destruct (drag_idx (points w) i p) as [E1 E2].
    now rewrite E1, E2.
  - unfold load_waypoints.
    destruct (match j_calibration data with
              | Some (Some a, Some b) => lift (set_points (geomap w) a b)
              | _ => Done (geomap w)
              end) as [gm|e]; simpl; [|discriminate].
    destruct (load_points gm _ []) as [ps|e]; simpl; [|discriminate].
    intros [= <-]. simpl. now rewrite reindex_idx, reindex_length.
Qed.

(** X1.  In map_1's window the [idx] of a point is its position in
    [self.points], counted from 0, after any sequence of image loads,
    calibration picks, added waypoints, drags and loaded files that runs
    to its end: [add_waypoint_center] numbers the new point by the length
    of the list, and [load_waypoints] re-indexes whatever ids the file
    held. *)
Theorem map1_idx_is_position (os : list (op F)) (w : MainWindow F) :
  run empty_window os = Done w ->
  map idx (points w) = map Z.of_nat (seq 0 (length (points w))).
Proof.
  assert (G : forall w0,
    map idx (points w0) = map Z.of_nat (seq 0 (length (points w0))) ->
    run w0 os = Done w ->
    map idx (points w) = map Z.of_nat (seq 0 (length (points w)))).
  { induction os as [|o os IH]; intros w0 E; simpl.
    - now intros [= <-].
    - destruct (do_op w0 o) as [w1|e] eqn:E1; simpl; [|discriminate].
      apply IH. now apply (do_op_indexed w0 w1 o). }
  apply G. reflexivity.
Qed.

(** The pixel records of a file are loaded as they are. *)
Lemma load_points_pixels (gm : GeoMapper F) (wps : list (WaypointJson F))
  (acc : list (DraggablePoint F)) (xy : list (F * F)) :
  map (fun wp => (j_px wp, j_py wp)) wps
    = map (fun p => (Some (fst p), Some (snd p))) xy ->
  exists ps, load_points gm wps acc = Done (acc ++ ps) /\ map pos ps = xy.
Proof.
  revert acc xy; induction wps as [|wp wps IH]; intros acc [|[x y] xy]; simpl;
    try discriminate.
  - intros _. exists []. now rewrite app_nil_r.
  - intros [= Ex Ey E]. rewrite Ex, Ey.
    destruct (IH (acc ++ [mkPoint (x, y)
                            match j_id wp with
                            | Some i => i
                            | None => Z.of_nat (length acc)
                            end]) xy E) as (ps & E1 & E2).
    eexists (_ :: ps). rewrite E1, <- app_assoc. simpl. split; [reflexivity|].
    now rewrite E2.
Qed.

(** A file without pixel-less records never reaches [ll_to_px]. *)
Lemma load_waypoints_pixels (w : MainWindow F) (data : FileJson F)
  (xy : list (F * F)) :
  map (fun wp => (j_px wp, j_py wp))
      (match j_waypoints data with Some l => l | None => [] end)
    = map (fun p => (Some (fst p), Some (snd p))) xy ->
  exists w', load_waypoints w data = Done w' /\
    map pos (points w') = xy /\
    map idx (points w') = map Z.of_nat (seq 0 (length xy)) /\
    image_item w' = image_item w /\
    geomap w' = match j_calibration data with
                | Some (Some a, Some b) => mkGeoMapper (Some a) (Some b)
                | _ => geomap w
                end.
Proof.
  intros E. unfold load_waypoints.
  set (gm := match j_calibration data with
             | Some (Some a, Some b) => mkGeoMapper (Some a) (Some b)
             | _ => geomap w
             end).
  assert (Eg : match j_calibration data with
               | Some (Some a, Some b) => lift (set_points (geomap w) a b)
               | _ => Done (geomap w)
               end = Done gm).
  { unfold gm. destruct (j_calibration data) as [[[a|] [b|]]|]; reflexivity. }
  rewrite Eg. simpl.
  destruct (load_points_pixels gm _ [] xy E) as (ps & E1 & E2).
  rewrite E1. simpl. eexists; split; [reflexivity|]. simpl.
  rewrite reindex_pos, reindex_idx, <- E2, length_map. auto.
Qed.

Section SeparatingWindow.
Context `{!SubtractionSeparates F}.

Lemma save_points_ready (gm : GeoMapper F) (ps : list (DraggablePoint F)) :
  is_ready gm = true ->
  exists wps, save_points gm ps = Ok wps /\
    map (fun wp => (j_px wp, j_py wp)) wps
      = map (fun p => (Some (fst p), Some (snd p))) (map pos ps) /\
    map j_id wps = map (fun p => Some (idx p)) ps /\
    Forall2 (fun p wp =>
               exists la lo, j_lat wp = Some la /\ j_lon wp = Some lo /\
                 px_to_ll gm (fst (pos p)) (snd (pos p)) = Ok (la, lo)) ps wps.
Proof.
  intros Hr. induction ps as [|p ps IH]; simpl.
  - exists []. repeat split; constructor.
  - destruct (ready_px_to_ll gm (fst (pos p)) (snd (pos p)) Hr)
      as (a & b & _ & _ & E).
    destruct IH as (wps & E1 & E2 & E3 & E4).
    rewrite E, E1. simpl. eexists; split; [reflexivity|]. simpl.
    rewrite E2, E3. repeat split. constructor; [|exact E4].
    simpl. eauto.
Qed.

(** X2.  Round trip of map_1's waypoint file.  With a ready calibration
    [save_waypoints] writes a document, one record per point in order,
    each with the point's pixel position and the latitude and longitude
    [px_to_ll] gives it; [load_waypoints] of that document, in any window,
    returns without exception and restores the calibration and every pixel
    position exactly, the points numbered from 0. *)
Theorem map1_save_load_round_trip (w w0 : MainWindow F) :
  is_ready (geomap w) = true ->
  exists data w',
    save_waypoints w = Ok (Some data) /\
    load_waypoints w0 data = Done w' /\
    geomap w' = geomap w /\
    map pos (points w') = map pos (points w) /\
    map idx (points w') = map Z.of_nat (seq 0 (length (points w))) /\
    image_item w' = image_item w0.
Proof.
  intros Hr. unfold save_waypoints. rewrite Hr. simpl.
  destruct (save_points_ready (geomap w) (points w) Hr) as (wps & E1 & E2 & _).
  rewrite E1. simpl.
  destruct (is_ready_points (geomap w) Hr) as (a & b & Ea & Eb & _).
  destruct (load_waypoints_pixels w0
              (mkFileJson (Some (p1 (geomap w), p2 (geomap w))) (Some wps))
              (map pos (points w)) E2) as (w' & L1 & L2 & L3 & L4 & L5).
  exists (mkFileJson (Some (p1 (geomap w), p2 (geomap w))) (Some wps)), w'.
  repeat split; auto.
  - rewrite L5. simpl. rewrite Ea, Eb.
    destruct (geomap w) as [q1 q2]; simpl in *. now subst.
  - now rewrite L3, length_map.
Qed.



(** X4.  The readout of the selected point shows coordinates exactly when
    the mapper is ready, and they are those of [px_to_ll] at the point's
    position; the "—" that the [except] branch of
    [update_selected_readout] writes is never shown. *)
Theorem map1_readout_never_dash (w : MainWindow F) (p : DraggablePoint F)
  (sel : list (DraggablePoint F)) :
  exists boxes,
    update_selected_readout w (p :: sel) = Selected_WP (idx p) boxes /\
    boxes <> Dash /\
    (is_ready (geomap w) = false -> boxes = Set_cal) /\
    (is_ready (geomap w) = true ->
       exists la lo, boxes = Coordinates la lo /\
         px_to_ll (geomap w) (fst (pos p)) (snd (pos p)) = Ok (la, lo)).
Proof.
  simpl. eexists; split; [reflexivity|].
  destruct (is_ready (geomap w)) eqn:Hr.
  - destruct (ready_px_to_ll (geomap w) (fst (pos p)) (snd (pos p)) Hr)
      as (a & b & _ & _ & E).
    rewrite E. repeat split; try discriminate. intros _. eauto.
  - repeat split; try discriminate.
Qed.
End SeparatingWindow.
End WindowAnyArithmetic.


(* ================================================================== *)
(** ** map_2.py: the window *)

Section EditorAnyArithmetic.
Context {F : Type} `{Libm F}.
Import Map2 Map2UI.

(** The ids of a list are 1, 2, ... in the order of the list, and its
    items are of the list's kind. *)
Lemma numbered_app (k : Kind) (l : list (DraggableBase F)) (item : DraggableBase F) :
  map item_id_1based l = map (fun i => Z.of_nat i + 1)%Z (seq 0 (length l)) ->
  Forall (fun it => kind it = k) l ->
  item_id_1based item = (Z.of_nat (length l) + 1)%Z -> kind item = k ->
  map item_id_1based (l ++ [item])
    = map (fun i => Z.of_nat i + 1)%Z (seq 0 (length (l ++ [item]))) /\
  Forall (fun it => kind it = k) (l ++ [item]).
Proof.
  intros E K Ei Ek. split.
  - rewrite length_app, Nat.add_1_r, seq_S, !map_app, E. simpl. now rewrite Ei.
  - apply Forall_app. split; [exact K|]. now constructor.
Qed.

Lemma add_waypoint_fields (s : bool) (l : list (DraggableBase F)) (x y : F)
  (nm : string) (item : DraggableBase F) :
  _add_waypoint s l x y nm = Ok item ->
  item_id_1based item = (Z.of_nat (length l) + 1)%Z /\ kind item = waypoint /\
  name item = nm.
Proof.
  unfold _add_waypoint. destruct (clamp_xy x y) as [cx cy].
  destruct (snap_xy s cx cy) as [[fx fy]|e]; simpl; [|discriminate].
  intros [= <-]. auto.
Qed.

Lemma add_mission_fields (s : bool) (l : list (DraggableBase F)) (x y : F)
  (nm : string) (item : DraggableBase F) :
  _add_mission s l x y nm = Ok item ->
  item_id_1based item = (Z.of_nat (length l) + 1)%Z /\ kind item = mission /\
  name item = nm.
Proof.
  unfold _add_mission. destruct (clamp_xy x y) as [cx cy].
  destruct (snap_xy s cx cy) as [[fx fy]|e]; simpl; [|discriminate].
  intros [= <-]. auto.
Qed.

Lemma apply_item_fields (s : bool) (item after : DraggableBase F) :
  _apply_item_to_scene s item = Ok after ->
  item_id_1based after = item_id_1based item /\ kind after = kind item /\
  name after = name item /\
  off_x after = off_x item /\ off_y after = off_y item.
Proof.
  unfold _apply_item_to_scene.
  destruct (scene_final s item) as [[fx fy]|e]; simpl; [|discriminate].
  intros [= <-]. simpl. auto.
Qed.

Lemma step_fields (item after : DraggableBase F) (c : call F) :
  step item c = Ok after ->
  item_id_1based after = item_id_1based item /\ kind after = kind item.
Proof.
  destruct c as [s x y|s x y]; simpl; unfold set_item_final, set_item_offset;
    intros E; apply apply_item_fields in E; simpl in E; tauto.
Qed.

Lemma on_item_moved_fields (s : bool) (item after : DraggableBase F) :
  on_item_moved s item = Ok after ->
  item_id_1based after = item_id_1based item /\ kind after = kind item.
Proof.
  unfold on_item_moved.
  destruct (px_to_meters _ _) as [x y]. destruct (clamp_xy x y) as [cx cy].
  destruct (snap_xy s cx cy) as [[fx fy]|e]; simpl; [|discriminate].
  unfold set_item_final. intros E; apply apply_item_fields in E; simpl in E; tauto.
Qed.

Lemma update_at_numbered (k : Kind) (l l' : list (DraggableBase F)) (i : nat)
  (f : DraggableBase F -> result (DraggableBase F)) :
  (forall item after, f item = Ok after ->
     item_id_1based after = item_id_1based item /\ kind after = kind item) ->
  update_at l i f = Ok l' ->
  map item_id_1based l' = map item_id_1based l /\ length l' = length l /\
  (Forall (fun it => kind it = k) l -> Forall (fun it => kind it = k) l').
Proof.
  intros Hf. revert i l'; induction l as [|item l IH]; intros [|i] l'; simpl;
    try (intros [= <-]; auto).
  - destruct (f item) as [a|e] eqn:E; simpl; [|discriminate].
    intros [= <-]. destruct (Hf _ _ E) as [E1 E2]. simpl. rewrite E1.
    repeat split. intros K. inversion K; subst. constructor; congruence.
  - destruct (update_at l i f) as [l1|e] eqn:E; simpl; [|discriminate].
    intros [= <-]. destruct (IH _ _ E) as (E1 & E2 & E3). simpl.
    rewrite E1, E2. repeat split. intros K. inversion K; subst.
    constructor; auto.
Qed.

Lemma renumber_ids (i : nat) (l : list (DraggableBase F)) :
  map item_id_1based (renumber i l)
    = map (fun i => Z.of_nat i + 1)%Z (seq i (length l)) /\
  length (renumber i l) = length l /\
  map kind (renumber i l) = map kind l.
Proof.
  revert i; induction l as [|w l IH]; intros i; simpl; [auto|].
  destruct (IH (S i)) as (E1 & E2 & E3). now rewrite E1, E2, E3.
Qed.

Lemma load_waypoint_entries_kind (s : bool) (es : list (option (ItemJson F)))
  (acc l : list (DraggableBase F)) :
  Forall (fun it => kind it = waypoint) acc ->
  load_waypoint_entries s es acc = Ok l ->
  Forall (fun it => kind it = waypoint) l.
Proof.
  revert acc; induction es as [|[e|] es IH]; intros acc K; simpl.
  - now intros [= <-].
  - destruct (_add_waypoint s acc (j_x e) (j_y e) _) as [item|x] eqn:E1;
      simpl; [|discriminate].
    destruct (load_item s item e) as [w|x] eqn:E2; simpl; [|discriminate].
    apply IH. apply Forall_app; split; [exact K|]. constructor; [|constructor].
    apply add_waypoint_fields in E1. unfold load_item in E2.
    apply apply_item_fields in E2. simpl in E2.
    destruct E2 as (_ & E2 & _). destruct E1 as (_ & E1 & _). congruence.
  - now apply IH.
Qed.

Lemma load_mission_entries_kind (s : bool) (es : list (option (ItemJson F)))
  (acc l : list (DraggableBase F)) :
  Forall (fun it => kind it = mission) acc ->
  load_mission_entries s es acc = Ok l ->
  Forall (fun it => kind it = mission) l.
Proof.
  revert acc; induction es as [|[e|] es IH]; intros acc K; simpl.
  - now intros [= <-].
  - destruct (_add_mission s acc (j_x e) (j_y e) _) as [item|x] eqn:E1;
      simpl; [|discriminate].
    destruct (load_item s item e) as [w|x] eqn:E2; simpl; [|discriminate].
    apply IH. apply Forall_app; split; [exact K|]. constructor; [|constructor].
    apply add_mission_fields in E1. unfold load_item in E2.
    apply apply_item_fields in E2. simpl in E2.
    destruct E2 as (_ & E2 & _). destruct E1 as (_ & E1 & _). congruence.
  - now apply IH.
Qed.

Lemma kind_map (k : Kind) (l l' : list (DraggableBase F)) :
  map kind l' = map kind l ->
  Forall (fun it => kind it = k) l -> Forall (fun it => kind it = k) l'.
Proof.
  revert l'; induction l as [|a l IH]; intros [|b l']; simpl; try discriminate;
    [constructor|].
  intros [= E1 E2] K. inversion K; subst. constructor; [congruence|auto].
Qed.

(** The two registries of a window: ids 1, 2, ... in list order, and only
    waypoints in [waypoints], only mission elements in [missions]. *)
Lemma do_op_numbered (w w' : MainWindow F) (o : op F) :
  (map item_id_1based (waypoints w)
     = map (fun i => Z.of_nat i + 1)%Z (seq 0 (length (waypoints w))) /\
   Forall (fun it => kind it = waypoint) (waypoints w)) ->
  (map item_id_1based (missions w)
     = map (fun i => Z.of_nat i + 1)%Z (seq 0 (length (missions w))) /\
   Forall (fun it => kind it = mission) (missions w)) ->
  do_op w o = Ok w' ->
  (map item_id_1based (waypoints w')
     = map (fun i => Z.of_nat i + 1)%Z (seq 0 (length (waypoints w'))) /\
   Forall (fun it => kind it = waypoint) (waypoints w')) /\
  (map item_id_1based (missions w')
     = map (fun i => Z.of_nat i + 1)%Z (seq 0 (length (missions w'))) /\
   Forall (fun it => kind it = mission) (missions w')).
Proof.
  intros [W1 W2] [M1 M2].
  assert (AW : forall x y nm, window_add_waypoint w x y nm = Ok w' ->
    (map item_id_1based (waypoints w')
       = map (fun i => Z.of_nat i + 1)%Z (seq 0 (length (waypoints w'))) /\
     Forall (fun it => kind it = waypoint) (waypoints w')) /\
    (map item_id_1based (missions w')
       = map (fun i => Z.of_nat i + 1)%Z (seq 0 (length (missions w'))) /\
     Forall (fun it => kind it = mission) (missions w'))).
  { intros x y nm. unfold window_add_waypoint.
    destruct (_add_waypoint _ _ x y nm) as [item|e] eqn:E; simpl; [|discriminate].
    intros [= <-]. simpl. apply add_waypoint_fields in E.
    destruct E as (E1 & E2 & _). split; [|auto].
    now apply numbered_app. }
  assert (AM : forall x y nm, window_add_mission w x y nm = Ok w' ->
    (map item_id_1based (waypoints w')
       = map (fun i => Z.of_nat i + 1)%Z (seq 0 (length (waypoints w'))) /\
     Forall (fun it => kind it = waypoint) (waypoints w')) /\
    (map item_id_1based (missions w')
       = map (fun i => Z.of_nat i + 1)%Z (seq 0 (length (missions w'))) /\
     Forall (fun it => kind it = mission) (missions w'))).
  { intros x y nm. unfold window_add_mission.
    destruct (_add_mission _ _ x y nm) as [item|e] eqn:E; simpl; [|discriminate].
    intros [= <-]. simpl. apply add_mission_fields in E.
    destruct E as (E1 & E2 & _). split; [auto|].
    now apply numbered_app. }
  assert (ED : forall k i f,
    (forall item after, f item = Ok after ->
       item_id_1based after = item_id_1based item /\ kind after = kind item) ->
    edit_selected w k i f = Ok w' ->
    (map item_id_1based (waypoints w')
       = map (fun i => Z.of_nat i + 1)%Z (seq 0 (length (waypoints w'))) /\
     Forall (fun it => kind it = waypoint) (waypoints w')) /\
    (map item_id_1based (missions w')
       = map (fun i => Z.of_nat i + 1)%Z (seq 0 (length (missions w'))) /\
     Forall (fun it => kind it = mission) (missions w'))).
  { intros k i f Hf. unfold edit_selected. destruct k.
    - destruct (update_at (waypoints w) i f) as [l|e] eqn:E; simpl; [|discriminate].
      intros [= <-]. simpl.
      destruct (update_at_numbered waypoint _ _ _ _ Hf E) as (E1 & E2 & E3).
      rewrite E1, E2. auto.
    - destruct (update_at (missions w) i f) as [l|e] eqn:E; simpl; [|discriminate].
      intros [= <-]. simpl.
      destruct (update_at_numbered mission _ _ _ _ Hf E) as (E1 & E2 & E3).
      rewrite E1, E2. auto. }
  destruct o as [b|k|x y| | |k i c|k i nm|k i p|data| ]; simpl.
  - intros [= <-]. simpl. auto.
  - intros [= <-]. simpl. auto.
  - unfold handle_double_click_add. destruct (px_to_meters x y) as [fx fy].
    destruct (add_mode w); [apply AW|apply AM].
  - apply AW.
  - apply AM.
  - apply ED. intros item after. apply step_fields.
  - apply ED. intros item after [= <-]. simpl. auto.
  - apply ED. intros item after E. apply on_item_moved_fields in E. simpl in E.
    exact E.
  - unfold load_json.
    destruct (load_waypoint_entries _ _ []) as [ws|e] eqn:E1; simpl; [|discriminate].
    destruct (load_mission_entries _ _ []) as [ms|e] eqn:E2; simpl; [|discriminate].
    intros [= <-]. simpl.
    destruct (renumber_ids 0 ws) as (A1 & A2 & A3).
    destruct (renumber_ids 0 ms) as (B1 & B2 & B3).
    rewrite A1, A2, B1, B2. repeat split.
    + apply (kind_map _ ws); [exact A3|].
      eapply load_waypoint_entries_kind; [|exact E1]. constructor.
    + apply (kind_map _ ms); [exact B3|].
      eapply load_mission_entries_kind; [|exact E2]. constructor.
  - intros [= <-]. simpl. repeat split; constructor.
Qed.

(** X5.  In map_2's window the ids of the waypoints are 1, 2, ... in the
    order of [self.waypoints], and so are those of the mission elements in
    [self.missions], after any sequence of operations that runs to its
    end: double clicks and the two "add" buttons, edits, renames and drags
    of the selected item, loaded files and "clear".  No waypoint is in
    [missions] and no mission element in [waypoints]. *)
Theorem map2_ids_are_positions (os : list (op F)) (w : MainWindow F) :
  run empty_window os = Ok w ->
  (map item_id_1based (waypoints w)
     = map (fun i => Z.of_nat i + 1)%Z (seq 0 (length (waypoints w))) /\
   Forall (fun it => kind it = waypoint) (waypoints w)) /\
  (map item_id_1based (missions w)
     = map (fun i => Z.of_nat i + 1)%Z (seq 0 (length (missions w))) /\
   Forall (fun it => kind it = mission) (missions w)).
Proof.
  assert (G : forall os w0 w,
    (map item_id_1based (waypoints w0)
       = map (fun i => Z.of_nat i + 1)%Z (seq 0 (length (waypoints w0))) /\
     Forall (fun it => kind it = waypoint) (waypoints w0)) ->
    (map item_id_1based (missions w0)
       = map (fun i => Z.of_nat i + 1)%Z (seq 0 (length (missions w0))) /\
     Forall (fun it => kind it = mission) (missions w0)) ->
    run w0 os = Ok w ->
    (map item_id_1based (waypoints w)
       = map (fun i => Z.of_nat i + 1)%Z (seq 0 (length (waypoints w))) /\
     Forall (fun it => kind it = waypoint) (waypoints w)) /\
    (map item_id_1based (missions w)
       = map (fun i => Z.of_nat i + 1)%Z (seq 0 (length (missions w))) /\
     Forall (fun it => kind it = mission) (missions w))).
  { clear os w. induction os as [|o os IH]; intros w0 w HW HM; simpl.
    - intros [= <-]. auto.
    - destruct (do_op w0 o) as [w1|e] eqn:E; simpl; [|discriminate].
      destruct (do_op_numbered w0 w1 o HW HM E) as [HW1 HM1].
      now apply IH. }
  apply G; simpl; repeat split; constructor.
Qed.
End EditorAnyArithmetic.


Section EditorBinary64.
Import Map2 Map2UI.
Local Open Scope float_scope.

Lemma clamp_scene (v : float) :
  (0 <=? clamp v 0 800) = true /\ (clamp v 0 800 <=? 800) = true /\
  clamp (clamp v 0 800) 0 800 = clamp v 0 800 /\
  ((0 <? v) = true -> (v <? 800) = true -> clamp v 0 800 = v).
Proof.
  unfold clamp, pymax, pymin; simpl fltb.
  destruct (v <? 800) eqn:Hhi.
  - destruct (0 <? v) eqn:Hlo.
    + rewrite Hhi, Hlo. repeat split; now apply ltb_leb.
    + repeat split; try (vm_compute; reflexivity). discriminate.
  - repeat split; try (vm_compute; reflexivity). discriminate.
Qed.

(** X6.  [itemChange] keeps every item on the grid's 800 x 800 scene: for
    every position Qt proposes, NaN and infinities included, the position
    it gives back has both coordinates in [0, 800]; a position strictly
    inside is given back unchanged, and the function is idempotent. *)
Theorem map2_item_change_stays_in_scene (p : float * float) :
  let q := itemChange p in
  (0 <=? fst q) = true /\ (fst q <=? 800) = true /\
  (0 <=? snd q) = true /\ (snd q <=? 800) = true /\
  itemChange q = q /\
  ((0 <? fst p) = true -> (fst p <? 800) = true ->
   (0 <? snd p) = true -> (snd p <? 800) = true -> q = p).
Proof.
  destruct p as [x y]. unfold itemChange. cbn [fst snd].
  change (@of_int float binary64 0) with 0.
  change (@of_int float binary64 W_PX) with 800.
  change (@of_int float binary64 H_PX) with 800.
  destruct (clamp_scene x) as (X1 & X2 & X3 & X4).
  destruct (clamp_scene y) as (Y1 & Y2 & Y3 & Y4).
  cbv zeta. cbn [fst snd]. repeat split; auto.
  - now rewrite X3, Y3.
  - intros A B C D. now rewrite X4, Y4.
Qed.

(** Adding [+0.0] keeps a number between two bounds. *)
Lemma add_zero_SF (x : float) :
  Prim2SF (x + 0) = Prim2SF x \/
  (Prim2SF x = S754_zero true /\ Prim2SF (x + 0) = S754_zero false).
Proof.
  rewrite add_spec. change (Prim2SF 0) with (S754_zero false).
  destruct (Prim2SF x) as [[|]| [|] | |s m e]; simpl; auto.
Qed.

Lemma add_zero_leb (lo hi x : float) :
  (lo <=? x) = true -> (x <=? hi) = true ->
  (lo <=? x + 0) = true /\ (x + 0 <=? hi) = true.
Proof.
  rewrite !leb_spec. destruct (add_zero_SF x) as [E|[E1 E2]].
  - now rewrite E.
  - rewrite E1, E2. unfold SFleb, SFcompare.
    destruct (Prim2SF lo) as [?| ?| |? ? ?], (Prim2SF hi) as [?| ?| |? ? ?]; auto.
Qed.

(** X7.  With snapping off, [_add_waypoint] and [_add_mission] return for
    every requested position, NaN and infinities included, and the item
    they build has offset zero, an id one above the length of its list and
    a final position [base + offset] inside the 100 m box on both axes. *)
Theorem map2_new_item_is_in_the_box
  (l : list (DraggableBase float)) (x y : float) (nm : string) :
  (exists item, _add_waypoint false l x y nm = Ok item /\
     off_x item = 0 /\ off_y item = 0 /\
     item_id_1based item = (Z.of_nat (length l) + 1)%Z /\
     (-50 <=? fst (final_from_item item)) = true /\
     (fst (final_from_item item) <=? 50) = true /\
     (-50 <=? snd (final_from_item item)) = true /\
     (snd (final_from_item item) <=? 50) = true) /\
  (exists item, _add_mission false l x y nm = Ok item /\
     off_x item = 0 /\ off_y item = 0 /\
     item_id_1based item = (Z.of_nat (length l) + 1)%Z /\
     (-50 <=? fst (final_from_item item)) = true /\
     (fst (final_from_item item) <=? 50) = true /\
     (-50 <=? snd (final_from_item item)) = true /\
     (snd (final_from_item item) <=? 50) = true).
Proof.
  unfold _add_waypoint, _add_mission, clamp_xy, snap_xy.
  simpl negb. cbv iota. cbn [bind].
  change (fneg HALF_M) with (-50). change (@HALF_M float binary64) with 50.
  destruct (clamp_binary64_in_box x) as [Hx1 Hx2].
  destruct (clamp_binary64_in_box y) as [Hy1 Hy2].
  destruct (add_zero_leb _ _ _ Hx1 Hx2) as [Ax1 Ax2].
  destruct (add_zero_leb _ _ _ Hy1 Hy2) as [Ay1 Ay2].
  split; (eexists; split; [reflexivity|]); unfold final_from_item; simpl;
    change (float_of_int 0) with 0; repeat split; assumption.
Qed.
End EditorBinary64.

Section EditorExact.
Import Map2 Map2UI.
Local Open Scope R_scope.

Lemma half_width_exact : fquo (of_int W_PX) (of_int 2) = 400.
Proof. unfold W_PX; simpl. lra. Qed.

Lemma half_height_exact : fquo (of_int H_PX) (of_int 2) = 400.
Proof. unfold H_PX; simpl. lra. Qed.

Lemma px_to_meters_exact (x_px y_px : R) :
  px_to_meters x_px y_px = ((x_px - 400) / 8, (400 - y_px) / 8).
Proof.
  unfold px_to_meters. rewrite half_width_exact, half_height_exact. reflexivity.
Qed.

Lemma meters_to_px_exact (x y : R) :
  meters_to_px x y = (400 + x * 8, 400 - y * 8).
Proof.
  unfold meters_to_px. rewrite half_width_exact, half_height_exact. reflexivity.
Qed.

(** X8.  In exact arithmetic [px_to_meters] and [meters_to_px] are inverse
    bijections between scene pixels and grid metres, the centre of the
    scene being the point (0, 0), and the box of 100 m is the scene of
    800 pixels: a point of the box has its pixel in [0, 800] on both
    axes. *)
Theorem map2_pixels_and_meters (x y : R) :
  (let '(x_px, y_px) := meters_to_px x y in px_to_meters x_px y_px) = (x, y) /\
  (let '(mx, my) := px_to_meters x y in meters_to_px mx my) = (x, y) /\
  (-50 <= x <= 50 -> -50 <= y <= 50 ->
   0 <= fst (meters_to_px x y) <= 800 /\ 0 <= snd (meters_to_px x y) <= 800).
Proof.
  split; [|split].
  - rewrite meters_to_px_exact, px_to_meters_exact. f_equal; field.
  - rewrite px_to_meters_exact, meters_to_px_exact. f_equal; field.
  - rewrite meters_to_px_exact. simpl. lra.
Qed.


End EditorExact.


Section EditorFilesExact.
Import Map2 Map2UI.
Local Open Scope R_scope.






End EditorFilesExact.


(* ================================================================== *)
(** ** map_4.py: the window *)

Section SurveyorAnyArithmetic.
Context {F : Type} `{Libm F}.
Import Map4 Map4UI.

Lemma move_ids (gs : list (WaypointGraphic F)) (k : nat) (p : F * F) :
  map wp_id (move gs k p) = map wp_id gs.
Proof.
  revert k; induction gs as [|g gs IH]; intros [|k]; simpl; try reflexivity.
  now rewrite IH.
Qed.

Lemma setitem_length {A : Type} (l l' : list A) (i : nat) (v : A) :
  setitem l i v = Done l' -> length l' = length l.
Proof.
  revert i l'; induction l as [|h l IH]; intros [|i] l'; simpl; try discriminate.
  - now intros [= <-].
  - destruct (setitem l i v) as [t|e] eqn:E; simpl; [|discriminate].
    intros [= <-]. simpl. now rewrite (IH _ _ E).
Qed.

Lemma setitem_in_range {A : Type} (l : list A) (i : nat) (v : A) :
  (i < length l)%nat -> exists l', setitem l i v = Done l'.
Proof.
  revert i; induction l as [|h l IH]; intros [|i]; simpl; try lia.
  - eauto.
  - intros Hi. destruct (IH i) as [l' E]; [lia|]. rewrite E. simpl. eauto.
Qed.

Lemma nth_error_seq_ids (gs : list (WaypointGraphic F)) (n k : nat)
  (g : WaypointGraphic F) :
  map wp_id gs = seq 0 n -> nth_error gs k = Some g ->
  wp_id g = k /\ (k < n)%nat.
Proof.
  intros E Hk.
  assert (Hm : nth_error (map wp_id gs) k = Some (wp_id g))
    by now rewrite nth_error_map, Hk.
  rewrite E in Hm.
  assert (Hlt : (k < length (seq 0 n))%nat)
    by (apply nth_error_Some; congruence).
  rewrite length_seq in Hlt.
  rewrite (nth_error_nth' _ 0%nat) in Hm by now rewrite length_seq.
  rewrite seq_nth in Hm by exact Hlt. simpl in Hm. split; congruence.
Qed.

Lemma add_waypoint_ids (w : MainWindow F) (boxes : option (F * F * F * F * F * F)) :
  map wp_id (graphics w) = seq 0 (length (waypoints_data w)) ->
  map wp_id (graphics (add_waypoint w boxes))
    = seq 0 (length (waypoints_data (add_waypoint w boxes))).
Proof.
  intros E. unfold add_waypoint.
  destruct boxes as [[[[[[o_lat o_lon] m_lat] m_lon] brg] dst]|]; [|exact E].
  unfold add_waypoint_body.
  destruct (calculate_forward_geodesic m_lat m_lon brg dst) as [[t_lat t_lon]|e];
    simpl; [|exact E].
  destruct (latlon_to_local_xy o_lat o_lon t_lat t_lon) as [tx ty].
  destruct (m_to_px tx ty) as [px py]. simpl.
  rewrite map_app, length_app, Nat.add_1_r, seq_S, E. reflexivity.
Qed.

Lemma drag_outcome (w : MainWindow F) (origin : option (F * F)) (k : nat)
  (p : F * F) :
  map wp_id (graphics w) = seq 0 (length (waypoints_data w)) ->
  (exists w', drag w origin k p = Done w' /\
     map wp_id (graphics w') = seq 0 (length (waypoints_data w'))) \/
  (exists e, drag w origin k p = Failed (Arithmetic e)).
Proof.
  intros E. unfold drag. destruct (nth_error (graphics w) k) as [g|] eqn:Hk.
  - destruct (nth_error_seq_ids _ _ _ _ E Hk) as [Eg Hlt].
    unfold update_waypoint_coords. destruct origin as [[o_lat o_lon]|]; [|eauto].
    destruct (px_to_m (fst p) (snd p)) as [mx my].
    destruct (local_xy_to_latlon o_lat o_lon mx my) as [[t_lat t_lon]|e];
      simpl; [|eauto].
    cbn [waypoints_data graphics].
    destruct (setitem_in_range (waypoints_data w) (wp_id g)
                (mkData t_lat t_lon mx my)) as [l El]; [lia|].
    rewrite El. simpl. left. eexists; split; [reflexivity|]. simpl.
    now rewrite move_ids, (setitem_length _ _ _ _ El).
  - left. eauto.
Qed.

Lemma run_ids (os : list (op F)) (w w' : MainWindow F) :
  map wp_id (graphics w) = seq 0 (length (waypoints_data w)) ->
  run w os = Done w' ->
  map wp_id (graphics w') = seq 0 (length (waypoints_data w')).
Proof.
  revert w; induction os as [|o os IH]; intros w E; simpl.
  - now intros [= <-].
  - destruct (do_op w o) as [w1|e] eqn:E1; simpl; [|discriminate].
    apply IH. destruct o as [boxes|origin k p| ]; simpl in E1.
    + injection E1 as <-. now apply add_waypoint_ids.
    + destruct (drag_outcome w origin k p E) as [(w2 & E2 & E3)|(e & E2)];
        congruence.
    + injection E1 as <-. reflexivity.
Qed.

(** X12.  In map_4's window the [wp_id] of a graphic is the index of its
    record in [waypoints_data], after any sequence of projections, drags
    and "clear" that runs to its end: there is one graphic per record, in
    the same order.  So the assignment [waypoints_data[wp_id] = ...] of a
    drag never raises IndexError and never writes another waypoint's
    record: a drag returns, or stops at the ValueError of an unreadable
    origin box or at the ZeroDivisionError of [local_xy_to_latlon]. *)
Theorem map4_wp_id_indexes_the_records (os : list (op F)) (w : MainWindow F) :
  run empty_window os = Done w ->
  map wp_id (graphics w) = seq 0 (length (waypoints_data w)) /\
  forall origin k p,
    (exists w', drag w origin k p = Done w' /\
       length (waypoints_data w') = length (waypoints_data w)) \/
    drag w origin k p = Failed (Arithmetic ValueError) \/
    drag w origin k p = Failed (Arithmetic ZeroDivisionError).
Proof.
  intros Hr. assert (E := run_ids os empty_window w eq_refl Hr).
  split; [exact E|]. intros origin k p.
  unfold drag. destruct (nth_error (graphics w) k) as [g|] eqn:Hk; [|eauto].
  destruct (nth_error_seq_ids _ _ _ _ E Hk) as [Eg Hlt].
  unfold update_waypoint_coords. destruct origin as [[o_lat o_lon]|]; [|auto].
  destruct (px_to_m (fst p) (snd p)) as [mx my].
  unfold local_xy_to_latlon. destruct (get_meters_per_deg o_lat) as [m_lat m_lon].
  unfold truediv.
  destruct (m_lat ==! of_int 0); [simpl; auto|]. cbn [bind].
  destruct (m_lon ==! of_int 0); [simpl; auto|]. cbn [bind lift obind].
  cbn [waypoints_data graphics].
  match goal with
  | |- context [setitem _ _ ?d] =>
      destruct (setitem_in_range (waypoints_data w) (wp_id g) d) as [l El];
        [lia|]
  end.
  rewrite El. simpl. left. eexists; split; [reflexivity|]. simpl.
  exact (setitem_length _ _ _ _ El).
Qed.
End SurveyorAnyArithmetic.

Section SurveyorExact.
Import Map4 Map4UI.
Local Open Scope R_scope.

Lemma m_to_px_exact (x y : R) : m_to_px x y = (400 + x * 8, 400 - y * 8).
Proof. unfold m_to_px, W_PX, H_PX, PX_PER_M; simpl. f_equal; lra. Qed.

Lemma px_to_m_exact (x y : R) : px_to_m x y = ((x - 400) / 8, (400 - y) / 8).
Proof. unfold px_to_m, W_PX, H_PX, PX_PER_M; simpl. f_equal; lra. Qed.

Lemma map4_local_xy_exact (olat olon la lo : R) :
  latlon_to_local_xy olat olon la lo
    = ((lo - olon) * (111320 * cos (m_radians olat)), (la - olat) * 111320).
Proof. reflexivity. Qed.

Lemma map4_m_lon_cos (olat : R) :
  snd (get_meters_per_deg olat) <> 0 -> cos (olat * (PI / 180)) <> 0.
Proof. intros Hm C. apply Hm. simpl. rewrite C. ring. Qed.

Lemma local_xy_to_latlon_back (olat olon x y : R) :
  snd (get_meters_per_deg olat) <> 0 ->
  exists la lo,
    local_xy_to_latlon olat olon x y = Ok (la, lo) /\
    latlon_to_local_xy olat olon la lo = (x, y).
Proof.
  intros Hm. pose proof (map4_m_lon_cos olat Hm) as Hc.
  destruct (map4_local_xy_to_latlon_exact olat olon x y) as [_ G].
  rewrite (G Hm). eexists; eexists; split; [reflexivity|].
  rewrite map4_local_xy_exact. simpl. f_equal; field; exact Hc.
Qed.

Lemma m_to_px_of_px_to_m (px py : R) :
  (let '(x, y) := px_to_m px py in m_to_px x y) = (px, py).
Proof. rewrite px_to_m_exact, m_to_px_exact. f_equal; field. Qed.

(** X13.  map_4's conversions are inverse of each other about an origin
    whose [m_lon] is not zero (exact arithmetic): [latlon_to_local_xy]
    followed by [local_xy_to_latlon] returns the point, and
    [local_xy_to_latlon] returns for every x, y a point whose local metres
    are x, y.  [m_to_px] and [px_to_m] are inverse of each other too. *)
Theorem map4_conversions_are_inverse (olat olon : R) :
  snd (get_meters_per_deg olat) <> 0 ->
  (forall la lo,
     (let '(x, y) := latlon_to_local_xy olat olon la lo in
      local_xy_to_latlon olat olon x y) = Ok (la, lo)) /\
  (forall x y, exists la lo,
     local_xy_to_latlon olat olon x y = Ok (la, lo) /\
     latlon_to_local_xy olat olon la lo = (x, y)) /\
  (forall x y, (let '(px, py) := m_to_px x y in px_to_m px py) = (x, y)) /\
  (forall px py, (let '(x, y) := px_to_m px py in m_to_px x y) = (px, py)).
Proof.
  intros Hm. pose proof (map4_m_lon_cos olat Hm) as Hc.
  repeat split.
  - intros la lo. rewrite map4_local_xy_exact.
    destruct (map4_local_xy_to_latlon_exact olat olon
                ((lo - olon) * (111320 * cos (m_radians olat)))
                ((la - olat) * 111320)) as [_ G].
    rewrite (G Hm). simpl. f_equal. f_equal; field; exact Hc.
  - intros x y. now apply local_xy_to_latlon_back.
  - intros x y. rewrite m_to_px_exact, px_to_m_exact. f_equal; field.
  - intros px py. apply m_to_px_of_px_to_m.
Qed.

Lemma in_sync_setitem (origin : R * R) (ds ds' : list (WaypointData R))
  (gs : list (WaypointGraphic R)) (k : nat) (d : WaypointData R) (p : R * R) :
  Forall2 (in_sync origin) ds gs ->
  (forall i, in_sync origin d (mkGraphic i p)) ->
  setitem ds k d = Done ds' ->
  Forall2 (in_sync origin) ds' (move gs k p).
Proof.
  intros Hs Hd. revert k ds'; induction Hs as [|d0 g0 ds gs H0 Hs IH];
    intros [|k] ds'; simpl; try discriminate.
  - intros [= <-]. constructor; auto.
  - destruct (setitem ds k d) as [t|e] eqn:E; simpl; [|discriminate].
    intros [= <-]. constructor; auto.
Qed.

Lemma do_op_in_sync (origin : R * R) (w w' : MainWindow R) (o : op R) :
  snd (get_meters_per_deg (fst origin)) <> 0 ->
  reads_origin origin o ->
  map wp_id (graphics w) = seq 0 (length (waypoints_data w)) ->
  Forall2 (in_sync origin) (waypoints_data w) (graphics w) ->
  do_op w o = Done w' ->
  Forall2 (in_sync origin) (waypoints_data w') (graphics w').
Proof.
  intros Hm Ho E Hs. destruct o as [boxes|o' k p| ]; simpl.
  - intros [= <-]. unfold add_waypoint.
    destruct boxes as [[[[[[o_lat o_lon] m_lat] m_lon] brg] dst]|]; [|exact Hs].
    simpl in Ho. subst origin. unfold add_waypoint_body.
    destruct (calculate_forward_geodesic m_lat m_lon brg dst) as [[t_lat t_lon]|e];
      cbn [bind]; [|exact Hs].
    destruct (latlon_to_local_xy o_lat o_lon t_lat t_lon) as [tx ty] eqn:El.
    destruct (m_to_px tx ty) as [px py] eqn:Ep. simpl.
    apply Forall2_app; [exact Hs|]. constructor; [|constructor].
    split; simpl; [exact El|now rewrite Ep].
  - simpl in Ho. subst o'. unfold drag.
    destruct (nth_error (graphics w) k) as [g|] eqn:Hk; [|now intros [= <-]].
    destruct (nth_error_seq_ids _ _ _ _ E Hk) as [Eg _].
    unfold update_waypoint_coords. destruct origin as [o_lat o_lon].
    pose proof (m_to_px_of_px_to_m (fst p) (snd p)) as I4.
    destruct (px_to_m (fst p) (snd p)) as [mx my] eqn:Em.
    destruct (local_xy_to_latlon_back o_lat o_lon mx my Hm) as (la & lo & E1 & E2).
    rewrite E1. cbn [lift obind waypoints_data graphics].
    destruct (setitem (waypoints_data w) (wp_id g) (mkData la lo mx my))
      as [l|e] eqn:El; simpl; [|discriminate].
    intros [= <-]. simpl. rewrite Eg in El.
    eapply in_sync_setitem; [exact Hs| |exact El].
    intros i. split; simpl; [exact E2|]. rewrite I4. now destruct p.
  - intros [= <-]. constructor.
Qed.
End SurveyorExact.

Section SurveyorSync.
Import Map4 Map4UI.
Local Open Scope R_scope.

(** X14.  With one origin in the boxes, whose [m_lon] is not zero, the
    records and the scene of map_4's window stay in step (exact
    arithmetic): after any sequence of projections, drags and "clear"
    that runs to its end, every record's x, y are the local metres of its
    lat, lon, and its graphic is drawn at the pixel of x, y. *)
Theorem map4_records_stay_in_sync (origin : R * R) (os : list (op R))
  (w : MainWindow R) :
  snd (get_meters_per_deg (fst origin)) <> 0 ->
  Forall (reads_origin origin) os ->
  run empty_window os = Done w ->
  Forall2 (in_sync origin) (waypoints_data w) (graphics w).
Proof.
  intros Hm Ho.
  assert (G : forall w0,
    map wp_id (graphics w0) = seq 0 (length (waypoints_data w0)) ->
    Forall2 (in_sync origin) (waypoints_data w0) (graphics w0) ->
    run w0 os = Done w ->
    Forall2 (in_sync origin) (waypoints_data w) (graphics w)).
  { induction Ho as [|o os Ho1 Ho IH]; intros w0 E Hs; simpl.
    - now intros [= <-].
    - destruct (do_op w0 o) as [w1|e] eqn:E1; simpl; [|discriminate].
      apply IH.
      + apply (run_ids [o] w0 w1 E). simpl. now rewrite E1.
      + exact (do_op_in_sync origin w0 w1 o Hm Ho1 E Hs E1). }
  apply G; [reflexivity|constructor].
Qed.
End SurveyorSync.


(* ================================================================== *)
(** ** map_6.py: the window *)

Section PlannerAnyArithmetic.
Context {F : Type} {A : Arith F} {L : Libm F} {P : LibmPow F}.
Import Map6 Map6UI.

(** [relabel] changes the labels and nothing else. *)
Lemma relabel_labels (prefix : string) (i : nat) (l : list (MapItem F)) :
  map label (relabel prefix i l)
    = map (fun k => (prefix ++ str (k + 1))%string) (seq i (length l)).
Proof.
  revert i; induction l as [|e l IH]; intros i; simpl; [reflexivity|].
  now rewrite IH.
Qed.

Lemma relabel_rest (prefix : string) (i : nat) (l : list (MapItem F)) :
  map (fun e => (uid e, cls e, pos e, start_pos e, lat e, lon e))
      (relabel prefix i l)
    = map (fun e => (uid e, cls e, pos e, start_pos e, lat e, lon e)) l.
Proof.
  revert i; induction l as [|e l IH]; intros i; simpl; [reflexivity|].
  now rewrite IH.
Qed.

Lemma relabel_length (prefix : string) (i : nat) (l : list (MapItem F)) :
  length (relabel prefix i l) = length l.
Proof.
  revert i; induction l as [|e l IH]; intros i; simpl; [reflexivity|].
  now rewrite IH.
Qed.

Lemma relabel_uid (prefix : string) (i : nat) (l : list (MapItem F)) :
  map uid (relabel prefix i l) = map uid l.
Proof.
  revert i; induction l as [|e l IH]; intros i; simpl; [reflexivity|].
  now rewrite IH.
Qed.

Lemma relabel_cls (prefix : string) (i : nat) (l : list (MapItem F)) :
  map cls (relabel prefix i l) = map cls l.
Proof.
  revert i; induction l as [|e l IH]; intros i; simpl; [reflexivity|].
  now rewrite IH.
Qed.

(** With the labels up to date, the table and the saved file show them. *)
Lemma saved_labels (prefix : string) (i : nat) (l : list (MapItem F)) :
  map label l = map (fun k => (prefix ++ str (k + 1))%string) (seq i (length l)) ->
  saved prefix i l = map (fun e => (label e, lat e, lon e)) l.
Proof.
  revert i; induction l as [|e l IH]; intros i; simpl; [reflexivity|].
  intros [= E1 E2]. now rewrite <- E1, (IH _ E2).
Qed.

Lemma rows_labels (prefix type_str : string) (i : nat) (l : list (MapItem F)) :
  map label l = map (fun k => (prefix ++ str (k + 1))%string) (seq i (length l)) ->
  rows prefix type_str i l = map (fun e => (label e, type_str, lat e, lon e)) l.
Proof.
  revert i; induction l as [|e l IH]; intros i; simpl; [reflexivity|].
  intros [= E1 E2]. now rewrite <- E1, (IH _ E2).
Qed.

Lemma refresh_labelled (w : MainWindow F) :
  labelled "O" (elements (refresh_table_data w)) /\
  labelled "W" (waypoints (refresh_table_data w)).
Proof.
  unfold labelled; simpl. now rewrite !relabel_labels, !relabel_length.
Qed.

Lemma Forall_by_map {X Y : Type} (f : X -> Y) (Q : Y -> Prop) (l l' : list X) :
  map f l' = map f l ->
  Forall (fun x => Q (f x)) l -> Forall (fun x => Q (f x)) l'.
Proof. intros E Hl. apply Forall_map. rewrite E. now apply Forall_map. Qed.

Lemma distinct_objects_maps (w w' : MainWindow F) :
  map uid (elements w') = map uid (elements w) ->
  map uid (waypoints w') = map uid (waypoints w) ->
  map cls (elements w') = map cls (elements w) ->
  map cls (waypoints w') = map cls (waypoints w) ->
  next_uid w' = next_uid w ->
  distinct_objects w -> distinct_objects w'.
Proof.
  intros U1 U2 C1 C2 N (D1 & D2 & D3 & D4). unfold distinct_objects.
  assert (U : map uid (elements w' ++ waypoints w')
              = map uid (elements w ++ waypoints w))
    by now rewrite !map_app, U1, U2.
  rewrite N. repeat split.
  - now rewrite U.
  - exact (Forall_by_map uid (fun u => (u < next_uid w)%nat) _ _ U D2).
  - exact (Forall_by_map cls (fun c => c = MissionElement) _ _ C1 D3).
  - exact (Forall_by_map cls (fun c => c = Waypoint) _ _ C2 D4).
Qed.

Lemma refresh_distinct (w : MainWindow F) :
  distinct_objects w -> distinct_objects (refresh_table_data w).
Proof.
  apply distinct_objects_maps; simpl;
    auto using relabel_uid, relabel_cls.
Qed.

Lemma set_pos_maps (l l' : list (MapItem F)) (u : nat) (p : MapItem F -> F * F) :
  set_pos l u p = Ok l' ->
  map uid l' = map uid l /\ map cls l' = map cls l /\
  map start_pos l' = map start_pos l.
Proof.
  revert l'; induction l as [|e l IH]; intros l'; simpl.
  - now intros [= <-].
  - destruct (if (uid e =? u)%nat then _ else _) as [e'|x] eqn:E1;
      cbn [bind]; [|discriminate].
    destruct (set_pos l u p) as [l1|x] eqn:E2; cbn [bind]; [|discriminate].
    intros [= <-]. destruct (IH _ eq_refl) as (I1 & I2 & I3). simpl.
    rewrite I1, I2, I3.
    assert (K : uid e' = uid e /\ cls e' = cls e /\ start_pos e' = start_pos e).
    { destruct (uid e =? u)%nat; [|injection E1 as <-; auto].
      unfold update_coords in E1. destruct (coords_at _) as [[la lo]|x];
        cbn [bind] in E1; [|discriminate].
      injection E1 as <-. auto. }
    destruct K as (K1 & K2 & K3). now rewrite K1, K2, K3.
Qed.

Lemma item_moved_distinct (w w' : MainWindow F) (u : nat) (p : MapItem F -> F * F) :
  item_moved w u p = Ok w' -> distinct_objects w -> distinct_objects w'.
Proof.
  unfold item_moved.
  destruct (set_pos (elements w) u p) as [es|x] eqn:E1; cbn [bind]; [|discriminate].
  destruct (set_pos (waypoints w) u p) as [ws|x] eqn:E2; cbn [bind]; [|discriminate].
  intros [= <-] D. apply refresh_distinct.
  destruct (set_pos_maps _ _ _ _ E1) as (A1 & A2 & _).
  destruct (set_pos_maps _ _ _ _ E2) as (B1 & B2 & _).
  revert D. apply distinct_objects_maps; auto.
Qed.

Lemma remove_splits (item : MapItem F) (l l' : list (MapItem F)) :
  remove item l = Ok l' ->
  exists l1 e l2, l = l1 ++ e :: l2 /\ l' = l1 ++ l2 /\ uid e = uid item.
Proof.
  revert l'; induction l as [|e l IH]; intros l'; simpl; [discriminate|].
  destruct (uid e =? uid item)%nat eqn:Eu.
  - intros [= <-]. exists [], e, l. apply Nat.eqb_eq in Eu. auto.
  - destruct (remove item l) as [l1|x]; cbn [bind]; [|discriminate].
    intros [= <-]. destruct (IH _ eq_refl) as (a & e' & b & -> & -> & E).
    exists (e :: a), e', b. auto.
Qed.

Lemma distinct_remove_element (w : MainWindow F) (l1 l2 : list (MapItem F))
  (e : MapItem F) :
  elements w = l1 ++ e :: l2 ->
  distinct_objects w ->
  distinct_objects (mkWindow (l1 ++ l2) (waypoints w) (panel w) (next_uid w)).
Proof.
  intros E (D1 & D2 & D3 & D4). unfold distinct_objects; simpl.
  rewrite E in *. rewrite <- app_assoc in *. simpl in *.
  rewrite map_app in *. simpl in *.
  repeat split.
  - rewrite map_app. apply NoDup_remove_1 in D1. now rewrite map_app in D1.
  - apply Forall_app in D2. destruct D2 as [X Y]. inversion Y; subst.
    apply Forall_app; auto.
  - apply Forall_app in D3. destruct D3 as [X Y]. inversion Y; subst.
    apply Forall_app; auto.
  - exact D4.
Qed.

Lemma distinct_remove_waypoint (w : MainWindow F) (l1 l2 : list (MapItem F))
  (e : MapItem F) :
  waypoints w = l1 ++ e :: l2 ->
  distinct_objects w ->
  distinct_objects (mkWindow (elements w) (l1 ++ l2) (panel w) (next_uid w)).
Proof.
  intros E (D1 & D2 & D3 & D4). unfold distinct_objects; simpl.
  rewrite E in *. rewrite app_assoc in *.
  rewrite (map_app uid (elements w ++ l1)) in D1. simpl in D1.
  repeat split.
  - rewrite map_app. now apply NoDup_remove_1 in D1.
  - apply Forall_app in D2. destruct D2 as [X Y]. inversion Y; subst.
    apply Forall_app; auto.
  - exact D3.
  - apply Forall_app in D4. destruct D4 as [X Y]. inversion Y; subst.
    apply Forall_app; auto.
Qed.

Lemma delete_items_distinct (selected : list (MapItem F)) (w w' : MainWindow F) :
  delete_items w selected = Ok w' -> distinct_objects w -> distinct_objects w'.
Proof.
  revert w; induction selected as [|s sel IH]; intros w; simpl.
  - now intros [= <-].
  - destruct (cls s).
    + destruct (remove s (elements w)) as [l|x] eqn:E; cbn [bind]; [|discriminate].
      intros E1 D. apply (IH _ E1).
      destruct (remove_splits _ _ _ E) as (l1 & e & l2 & E2 & -> & _).
      now apply (distinct_remove_element w l1 l2 e).
    + destruct (remove s (waypoints w)) as [l|x] eqn:E; cbn [bind]; [|discriminate].
      intros E1 D. apply (IH _ E1).
      destruct (remove_splits _ _ _ E) as (l1 & e & l2 & E2 & -> & _).
      now apply (distinct_remove_waypoint w l1 l2 e).
Qed.

Lemma new_item_fields (u : nat) (c : ItemClass) (x y : F) (obj : MapItem F) :
  new_item u c x y = Ok obj ->
  uid obj = u /\ cls obj = c /\ pos obj = (x, y) /\ start_pos obj = (x, y) /\
  coords_at (x, y) = Ok (lat obj, lon obj).
Proof.
  unfold new_item. destruct (coords_at (x, y)) as [[la lo]|e]; cbn [bind];
    [|discriminate].
  intros [= <-]. auto.
Qed.

Lemma fresh_not_in (l : list (MapItem F)) (n : nat) :
  Forall (fun e => (uid e < n)%nat) l -> ~ In n (map uid l).
Proof.
  intros Hl Hin. apply in_map_iff in Hin. destruct Hin as (e & E & Hin).
  rewrite Forall_forall in Hl. specialize (Hl e Hin). lia.
Qed.

Lemma distinct_add_element (w : MainWindow F) (obj : MapItem F) :
  uid obj = next_uid w -> cls obj = MissionElement ->
  distinct_objects w ->
  distinct_objects (mkWindow (elements w ++ [obj]) (waypoints w) (panel w)
                             (S (next_uid w))).
Proof.
  intros U C (D1 & D2 & D3 & D4). unfold distinct_objects; simpl.
  rewrite <- app_assoc. simpl. repeat split.
  - rewrite map_app. simpl. rewrite map_app in D1.
    apply (NoDup_Add (Add_app (uid obj) _ _)). split; [exact D1|].
    rewrite U, <- map_app. now apply fresh_not_in.
  - apply Forall_app in D2. destruct D2 as [X Y].
    apply Forall_app; split; [|constructor; [rewrite U; lia|]].
    + eapply Forall_impl; [|exact X]. simpl; intros; lia.
    + eapply Forall_impl; [|exact Y]. simpl; intros; lia.
  - apply Forall_app; split; [exact D3|]. now constructor.
  - exact D4.
Qed.

Lemma distinct_add_waypoint (w : MainWindow F) (obj : MapItem F) :
  uid obj = next_uid w -> cls obj = Waypoint ->
  distinct_objects w ->
  distinct_objects (mkWindow (elements w) (waypoints w ++ [obj]) (panel w)
                             (S (next_uid w))).
Proof.
  intros U C (D1 & D2 & D3 & D4). unfold distinct_objects; simpl.
  rewrite app_assoc. repeat split.
  - rewrite map_app. simpl.
    assert (E := Add_app (uid obj) (map uid (elements w ++ waypoints w)) []).
    rewrite app_nil_r in E. apply (NoDup_Add E). split; [exact D1|].
    rewrite U. now apply fresh_not_in.
  - apply Forall_app; split; [|constructor; [rewrite U; lia|constructor]].
    eapply Forall_impl; [|exact D2]. simpl; intros; lia.
  - exact D3.
  - apply Forall_app; split; [exact D4|]. now constructor.
Qed.

Lemma nudge_items_distinct (selected : list (MapItem F)) (w w' : MainWindow F)
  (dx dy : F) :
  nudge_items w selected dx dy = Ok w' ->
  distinct_objects w -> distinct_objects w'.
Proof.
  revert w; induction selected as [|s sel IH]; intros w; simpl.
  - now intros [= <-].
  - destruct (item_moved w (uid s) _) as [w1|x] eqn:E; cbn [bind]; [|discriminate].
    intros E1 D. apply (IH _ E1). exact (item_moved_distinct _ _ _ _ E D).
Qed.

(** Every operation keeps the labels up to date and the objects
    distinct. *)
Lemma do_op_keeps (w w' : MainWindow F) (o : op F) :
  do_op w o = Ok w' ->
  labelled "O" (elements w) /\ labelled "W" (waypoints w) /\ distinct_objects w ->
  labelled "O" (elements w') /\ labelled "W" (waypoints w') /\ distinct_objects w'.
Proof.
  intros E (L1 & L2 & D).
  destruct o as [index|p|selected|selected la lo|la lo brg dist|u p];
    simpl in E.
  - injection E as <-. exact (conj L1 (conj L2 D)).
  - unfold handle_map_double_click in E. destruct (panel w =? 0)%Z.
    + destruct (new_item _ _ _ _) as [obj|x] eqn:En; cbn [bind] in E;
        [|discriminate].
      injection E as <-. apply new_item_fields in En.
      destruct En as (U & C & _).
      destruct (refresh_labelled
                  (mkWindow (elements w ++ [obj]) (waypoints w) (panel w)
                            (S (next_uid w)))) as [R1 R2].
      refine (conj R1 (conj R2 _)). apply refresh_distinct.
      now apply distinct_add_element.
    + destruct (new_item _ _ _ _) as [obj|x] eqn:En; cbn [bind] in E;
        [|discriminate].
      injection E as <-. apply new_item_fields in En.
      destruct En as (U & C & _).
      destruct (refresh_labelled
                  (mkWindow (elements w) (waypoints w ++ [obj]) (panel w)
                            (S (next_uid w)))) as [R1 R2].
      refine (conj R1 (conj R2 _)). apply refresh_distinct.
      now apply distinct_add_waypoint.
  - unfold delete_selected_item in E. destruct selected as [|s sel].
    + injection E as <-. auto.
    + destruct (delete_items w (s :: sel)) as [w1|x] eqn:Ed; cbn [bind] in E;
        [|discriminate].
      injection E as <-. destruct (refresh_labelled w1) as [R1 R2].
      refine (conj R1 (conj R2 _)). apply refresh_distinct.
      exact (delete_items_distinct _ _ _ Ed D).
  - unfold nudge_selected_item in E. destruct selected as [|s sel].
    + injection E as <-. auto.
    + destruct (nudge_items w (s :: sel) _ _) as [w1|x] eqn:Ed; cbn [bind] in E;
        [|discriminate].
      injection E as <-. destruct (refresh_labelled w1) as [R1 R2].
      refine (conj R1 (conj R2 _)). apply refresh_distinct.
      exact (nudge_items_distinct _ _ _ _ _ Ed D).
  - injection E as <-. unfold add_surveyed_element_by_input.
    destruct (add_surveyed_element_body w la lo brg dist) as [w1|x] eqn:Eb;
      [|auto].
    unfold add_surveyed_element_body in Eb.
    destruct (calculate_projection la lo brg dist) as [[t_lat t_lon]|x];
      cbn [bind] in Eb; [|discriminate].
    destruct (latlon_to_meters t_lat t_lon) as [em nm].
    destruct (new_item _ _ _ _) as [obj|x] eqn:En; cbn [bind] in Eb;
      [|discriminate].
    injection Eb as <-. apply new_item_fields in En.
    destruct En as (U & C & _).
    destruct (refresh_labelled
                (mkWindow (elements w ++ [obj]) (waypoints w) (panel w)
                          (S (next_uid w)))) as [R1 R2].
    refine (conj R1 (conj R2 _)). apply refresh_distinct.
    now apply distinct_add_element.
  - unfold item_moved in E.
    destruct (set_pos (elements w) u _) as [es|x] eqn:E1; cbn [bind] in E;
      [|discriminate].
    destruct (set_pos (waypoints w) u _) as [ws|x] eqn:E2; cbn [bind] in E;
      [|discriminate].
    injection E as <-.
    destruct (refresh_labelled (mkWindow es ws (panel w) (next_uid w))) as [R1 R2].
    refine (conj R1 (conj R2 _)). apply refresh_distinct.
    destruct (set_pos_maps _ _ _ _ E1) as (A1 & A2 & _).
    destruct (set_pos_maps _ _ _ _ E2) as (B1 & B2 & _).
    revert D. apply distinct_objects_maps; auto.
Qed.

(** X15.  In map_6's window the labels on the map are O1, O2, ... for the
    mission elements and W1, W2, ... for the waypoints, in the order of
    the two lists, after any sequence of mode switches, double clicks,
    deletions, nudges, projections and drags that runs to its end; the
    table and the saved mission give each item under the label it shows.
    Every object keeps an identity of its own and stays in the list of its
    class. *)
Theorem map6_labels_are_positions (os : list (op F)) (w : MainWindow F) :
  run empty_window os = Ok w ->
  labelled "O" (elements w) /\ labelled "W" (waypoints w) /\
  distinct_objects w /\
  save_mission w = (map (fun e => (label e, lat e, lon e)) (elements w),
                    map (fun e => (label e, lat e, lon e)) (waypoints w)) /\
  table w = map (fun e => (label e, "Object"%string, lat e, lon e)) (elements w)
            ++ map (fun e => (label e, "Waypoint"%string, lat e, lon e))
                   (waypoints w).
Proof.
  intros Hr.
  assert (G : forall os w0,
    labelled "O" (elements w0) /\ labelled "W" (waypoints w0) /\
    distinct_objects w0 ->
    run w0 os = Ok w ->
    labelled "O" (elements w) /\ labelled "W" (waypoints w) /\
    distinct_objects w).
  { clear os Hr. induction os as [|o os IH]; intros w0 I; simpl.
    - now intros [= <-].
    - destruct (do_op w0 o) as [w1|x] eqn:E; cbn [bind]; [|discriminate].
      apply IH. exact (do_op_keeps _ _ _ E I). }
  destruct (G os empty_window) as (L1 & L2 & D); [|exact Hr|].
  { repeat split; try constructor. }
  repeat split; auto; try apply D.
  - unfold save_mission. now rewrite (saved_labels _ _ _ L1), (saved_labels _ _ _ L2).
  - unfold table. now rewrite (rows_labels _ _ _ _ L1), (rows_labels _ _ _ _ L2).
Qed.
End PlannerAnyArithmetic.


Section PlannerDeletion.
Context {F : Type} {A : Arith F} {L : Libm F} {P : LibmPow F}.
Import Map6 Map6UI.

Lemma NoDup_app_apart {X : Type} (l l' : list X) (a : X) :
  NoDup (l ++ l') -> In a l -> ~ In a l'.
Proof.
  intros Hd Hin. apply in_split in Hin. destruct Hin as (l1 & l2 & ->).
  rewrite <- app_assoc in Hd. simpl in Hd. apply NoDup_remove_2 in Hd.
  intros Hin. apply Hd. apply in_or_app. right. apply in_or_app. now right.
Qed.

Lemma filter_absent (u : nat) (l : list (MapItem F)) :
  ~ In u (map uid l) -> filter (fun e => negb (u =? uid e)%nat) l = l.
Proof.
  induction l as [|e l IH]; simpl; [reflexivity|]. intros Hn.
  destruct (u =? uid e)%nat eqn:E.
  - apply Nat.eqb_eq in E. exfalso. apply Hn. now left.
  - simpl. rewrite IH; [reflexivity|]. intros Hin. apply Hn. now right.
Qed.

(** Among objects with distinct identities, [l.remove(item)] leaves the
    objects that are not [item]. *)
Lemma remove_is_filter (s : MapItem F) (l : list (MapItem F)) :
  NoDup (map uid l) -> In (uid s) (map uid l) ->
  remove s l = Ok (filter (fun e => negb (uid s =? uid e)%nat) l).
Proof.
  induction l as [|e l IH]; simpl; [tauto|]. intros Hd Hin.
  inversion Hd as [|u us Hu Hd']; subst.
  rewrite (Nat.eqb_sym (uid s) (uid e)).
  destruct (uid e =? uid s)%nat eqn:E; simpl.
  - apply Nat.eqb_eq in E. rewrite <- E in *. now rewrite filter_absent.
  - apply Nat.eqb_neq in E. destruct Hin as [Hin|Hin]; [congruence|].
    now rewrite (IH Hd' Hin).
Qed.

Lemma unselected_nil (l : list (MapItem F)) : filter (unselected []) l = l.
Proof.
  induction l as [|e l IH]; simpl; [reflexivity|]. now rewrite IH.
Qed.

Lemma unselected_cons (s : MapItem F) (sel l : list (MapItem F)) :
  filter (unselected (s :: sel)) l
    = filter (unselected sel) (filter (fun e => negb (uid s =? uid e)%nat) l).
Proof.
  induction l as [|e l IH]; simpl; [reflexivity|].
  unfold unselected at 1. simpl. rewrite negb_orb.
  destruct (uid s =? uid e)%nat; simpl; [exact IH|].
  fold (unselected sel e). destruct (unselected sel e); [now rewrite IH|exact IH].
Qed.

Lemma delete_items_filters (selected : list (MapItem F)) (w : MainWindow F) :
  distinct_objects w ->
  NoDup (map uid selected) ->
  incl selected (elements w ++ waypoints w) ->
  delete_items w selected
    = Ok (mkWindow (filter (unselected selected) (elements w))
                   (filter (unselected selected) (waypoints w))
                   (panel w) (next_uid w)).
Proof.
  revert w; induction selected as [|s sel IH]; intros w D Hs Hi.
  - simpl. rewrite !unselected_nil. now destruct w.
  - assert (D' := D). destruct D' as (D1 & D2 & D3 & D4).
    inversion Hs as [|u us Hu Hs']; subst.
    assert (Hin : In s (elements w ++ waypoints w)) by (apply Hi; now left).
    rewrite map_app in D1.
    assert (Step : exists w1,
      delete_items w [s] = Ok w1 /\
      elements w1 = filter (fun e => negb (uid s =? uid e)%nat) (elements w) /\
      waypoints w1 = filter (fun e => negb (uid s =? uid e)%nat) (waypoints w) /\
      panel w1 = panel w /\ next_uid w1 = next_uid w).
    { apply in_app_or in Hin. rewrite Forall_forall in D3, D4.
      destruct Hin as [Hin|Hin].
      - simpl. rewrite (D3 s Hin).
        rewrite remove_is_filter;
          [|exact (NoDup_app_remove_r _ _ D1)|now apply in_map].
        cbn [bind]. eexists; split; [reflexivity|]. simpl. repeat split.
        symmetry. apply filter_absent.
        apply (NoDup_app_apart _ _ _ D1). now apply in_map.
      - simpl. rewrite (D4 s Hin).
        rewrite remove_is_filter;
          [|exact (NoDup_app_remove_l _ _ D1)|now apply in_map].
        cbn [bind]. eexists; split; [reflexivity|]. simpl. repeat split.
        symmetry. apply filter_absent. intros He.
        apply (NoDup_app_apart _ _ _ D1 He). now apply in_map. }
    destruct Step as (w1 & E1 & Ee & Ew & Ep & En).
    assert (D1' : distinct_objects w1) by exact (delete_items_distinct _ _ _ E1 D).
    simpl in E1. simpl.
    destruct (match cls s with
              | MissionElement => _
              | Waypoint => _
              end) as [w1'|x]; cbn [bind] in E1 |- *; [|discriminate].
    injection E1 as ->.
    rewrite (IH w1 D1' Hs').
    + now rewrite Ee, Ew, Ep, En, <- !unselected_cons.
    + intros r Hr. assert (Hr' : In r (elements w ++ waypoints w))
        by (apply Hi; now right).
      assert (Hne : negb (uid s =? uid r)%nat = true).
      { apply negb_true_iff, Nat.eqb_neq. intros Eu. apply Hu.
        rewrite Eu. now apply in_map. }
      rewrite Ee, Ew. apply in_or_app. apply in_app_or in Hr'.
      destruct Hr' as [Hr'|Hr']; [left|right]; apply filter_In; auto.
Qed.

(** X16.  [delete_selected_item] removes exactly the selected objects.
    In a window whose objects are distinct and in the list of their class,
    for a selection of objects of the window that is not empty, the method
    returns; the two lists keep their other objects, in their order, and
    the labels are renumbered O1, O2, ... and W1, W2, ... without gap. *)
Theorem map6_delete_removes_the_selection
  (w : MainWindow F) (selected : list (MapItem F)) :
  distinct_objects w ->
  NoDup (map uid selected) ->
  incl selected (elements w ++ waypoints w) ->
  selected <> [] ->
  exists w',
    delete_selected_item w selected = Ok w' /\
    elements w' = relabel "O" 0 (filter (unselected selected) (elements w)) /\
    waypoints w' = relabel "W" 0 (filter (unselected selected) (waypoints w)) /\
    labelled "O" (elements w') /\ labelled "W" (waypoints w').
Proof.
  intros D Hs Hi Hn. unfold delete_selected_item.
  destruct selected as [|s sel]; [congruence|].
  rewrite (delete_items_filters (s :: sel) w D Hs Hi). cbn [bind].
  eexists; split; [reflexivity|]. split; [reflexivity|]. split; [reflexivity|].
  apply refresh_labelled.
Qed.
End PlannerDeletion.


Section PlannerExact.
Import Map6 Map6UI.
Local Open Scope R_scope.

Lemma map6_m_lon_pos : 0 < 111320 * cos (m_radians ORIGIN_LAT).
Proof.
  assert (Hc : 0 < cos (m_radians ORIGIN_LAT)).
  { apply cos_latitude_pos. rewrite map6_origin_lat. lra. }
  lra.
Qed.

Lemma map6_latlon_to_meters_exact (la lo : R) :
  latlon_to_meters la lo
    = ((lo - ORIGIN_LON) * (111320 * cos (m_radians ORIGIN_LAT)),
       (la - ORIGIN_LAT) * 111320).
Proof. reflexivity. Qed.

Lemma map6_latlon_round_trip (la lo : R) :
  meters_to_latlon ((lo - ORIGIN_LON) * (111320 * cos (m_radians ORIGIN_LAT)))
                   ((la - ORIGIN_LAT) * 111320) = Ok (la, lo).
Proof.
  pose proof map6_m_lon_pos as Hm. rewrite map6_meters_to_latlon_exact.
  f_equal. f_equal; field; lra.
Qed.

(** X17.  map_6's conversions about its fixed origin are inverse of each
    other (exact arithmetic): [latlon_to_meters] followed by
    [meters_to_latlon] returns the point, and [meters_to_latlon] returns
    for all metres a point whose metres they are.  No division by zero can
    occur: the origin's [m_lon] is positive. *)
Theorem map6_conversions_are_inverse (la lo e n : R) :
  (let '(em, nm) := latlon_to_meters la lo in meters_to_latlon em nm)
    = Ok (la, lo) /\
  exists la' lo',
    meters_to_latlon e n = Ok (la', lo') /\ latlon_to_meters la' lo' = (e, n).
Proof.
  pose proof map6_m_lon_pos as Hm. split.
  - rewrite map6_latlon_to_meters_exact. apply map6_latlon_round_trip.
  - rewrite map6_meters_to_latlon_exact. eexists; eexists; split; [reflexivity|].
    rewrite map6_latlon_to_meters_exact. f_equal; field; lra.
Qed.

Lemma center_exact : CENTER_X_PX = 400 /\ CENTER_Y_PX = 720.
Proof.
  unfold CENTER_X_PX, CENTER_Y_PX, decimal, W_PX, H_PX; simpl. split; lra.
Qed.

Lemma coords_at_exact (p : R * R) :
  coords_at p
    = meters_to_latlon ((snd p - 720) / 8) ((fst p - 400) / 8).
Proof.
  unfold coords_at. destruct center_exact as [-> ->]. reflexivity.
Qed.

Lemma coords_at_total (p : R * R) : exists la lo, coords_at p = Ok (la, lo).
Proof.
  rewrite coords_at_exact, map6_meters_to_latlon_exact. eauto.
Qed.

Lemma displacement_exact (e : MapItem R) :
  get_displacement_m e
    = Ok (R_sqrt.sqrt (((fst (pos e) - fst (start_pos e)) / 8) ^ 2
                       + ((snd (pos e) - snd (start_pos e)) / 8) ^ 2)).
Proof.
  unfold get_displacement_m, math_sqrt, PX_PER_M. simpl.
  set (dx := (fst (pos e) - fst (start_pos e)) / 8).
  set (dy := (snd (pos e) - snd (start_pos e)) / 8).
  assert (H0 : 0 <= dx * (dx * 1) + dy * (dy * 1)) by nra.
  assert (E : Rltb (dx * (dx * 1) + dy * (dy * 1)) 0 = false)
    by (apply Rltb_false; exact H0).
  now rewrite E.
Qed.



End PlannerExact.


Section PlannerNudgeExact.
Import Map6 Map6UI.
Local Open Scope R_scope.

Lemma set_pos_nudged (u : nat) (a b : R) (l : list (MapItem R)) :
  exists l',
    set_pos l u (fun e => (fst (pos e) +! (b *! PX_PER_M),
                           snd (pos e) +! (fneg a *! PX_PER_M))) = Ok l' /\
    Forall2 (nudged u a b) l l'.
Proof.
  induction l as [|e l (l' & E & Hl)]; cbn [set_pos].
  - exists []. split; [reflexivity|constructor].
  - rewrite E. unfold PX_PER_M. simpl of_int. cbn [fadd fmul fneg exact].
    destruct (uid e =? u)%nat eqn:Eu.
    + unfold update_coords. cbn [pos].
      destruct (coords_at_total (fst (pos e) + b * 8, snd (pos e) + - a * 8))
        as (la & lo & Ec).
      rewrite Ec. cbn [bind]. eexists; split; [reflexivity|].
      constructor; [|exact Hl].
      unfold nudged. cbn [uid cls start_pos pos lat lon]. rewrite Eu.
      repeat split; try exact Ec.
      intros Es. rewrite displacement_exact. cbn [pos start_pos fst snd].
      rewrite <- Es. f_equal. f_equal. field.
    + cbn [bind]. eexists; split; [reflexivity|].
      constructor; [|exact Hl]. unfold nudged. rewrite Eu. repeat split.
Qed.

Lemma relabel_nudged (u : nat) (a b : R) (prefix : string) (i : nat)
  (l l' : list (MapItem R)) :
  Forall2 (nudged u a b) l l' -> Forall2 (nudged u a b) l (relabel prefix i l').
Proof.
  intros Hl. revert i; induction Hl as [|e e' l l' He Hl IH]; intros i; simpl;
    constructor; auto.
Qed.

(** X20.  [nudge_selected_item] on one selected item (exact arithmetic).
    The method reads its two numbers in the boxes [in_lat] and [in_lon];
    with [a] and [b] there, it returns, the selected item has moved by
    [b * 8] pixels in x and [- a * 8] pixels in y and its latitude and
    longitude are those of its new pixel; an item nudged from its start
    position shows a "Move Delta" of [sqrt (a * a + b * b)] metres.  Every
    other item keeps its position and coordinates, and the labels stay
    O1, O2, ... and W1, W2, .... *)
Theorem map6_nudge_moves_the_selected_item
  (w : MainWindow R) (s : MapItem R) (a b : R) :
  exists w',
    nudge_selected_item w [s] a b = Ok w' /\
    Forall2 (nudged (uid s) a b) (elements w) (elements w') /\
    Forall2 (nudged (uid s) a b) (waypoints w) (waypoints w') /\
    labelled "O" (elements w') /\ labelled "W" (waypoints w').
Proof.
  unfold nudge_selected_item, nudge_items, item_moved.
  destruct (set_pos_nudged (uid s) a b (elements w)) as (es & E1 & H1).
  destruct (set_pos_nudged (uid s) a b (waypoints w)) as (ws & E2 & H2).
  rewrite E1, E2. cbn [bind]. eexists; split; [reflexivity|].
  split; [|split].
  - cbn [elements refresh_table_data]. now do 2 apply relabel_nudged.
  - cbn [waypoints refresh_table_data]. now do 2 apply relabel_nudged.
  - apply refresh_labelled.
Qed.
End PlannerNudgeExact.


(* ================================================================== *)
(** ** The windows at concrete inputs *)

Section WindowInstances.

Lemma map1_idx_is_position_witness :
  exists w,
    Map1UI.run Map1UI.empty_window map1_session = Done w /\
    map Map1UI.idx (Map1UI.points w)
      = map Z.of_nat (seq 0 (length (Map1UI.points w))).
Proof.
  eexists. split; [vm_compute; reflexivity|].
  apply (map1_idx_is_position map1_session). vm_compute. reflexivity.
Defined.

Lemma map1_save_load_round_trip_witness :
  exists data w',
    Map1UI.save_waypoints map1_window = Ok (Some data) /\
    Map1UI.load_waypoints Map1UI.empty_window data = Done w' /\
    Map1UI.geomap w' = Map1UI.geomap map1_window /\
    map Map1UI.pos (Map1UI.points w') = map Map1UI.pos (Map1UI.points map1_window) /\
    map Map1UI.idx (Map1UI.points w')
      = map Z.of_nat (seq 0 (length (Map1UI.points map1_window))) /\
    Map1UI.image_item w' = Map1UI.image_item (F:=float) Map1UI.empty_window.
Proof.
  apply (map1_save_load_round_trip (F:=float) map1_window Map1UI.empty_window).
  vm_compute. reflexivity.
Defined.


Lemma map1_readout_never_dash_witness :
  exists boxes,
    Map1UI.update_selected_readout map1_window
      [Map1UI.mkPoint (512.3, 300.7)%float 0] = Map1UI.Selected_WP 0 boxes /\
    boxes <> Map1UI.Dash.
Proof.
  destruct (map1_readout_never_dash (F:=float) map1_window
              (Map1UI.mkPoint (512.3, 300.7)%float 0) [])
    as (boxes & E & Hd & _).
  exists boxes. split; [exact E|exact Hd].
Defined.

Lemma map2_ids_are_positions_witness :
  exists w,
    Map2UI.run Map2UI.empty_window map2_session = Ok w /\
    map Map2.item_id_1based (Map2UI.waypoints w) = [1; 2]%Z /\
    map Map2.item_id_1based (Map2UI.missions w) = [1; 2]%Z.
Proof.
  eexists. split; [vm_compute; reflexivity|].
  match goal with
  | |- map _ (Map2UI.waypoints ?w) = _ /\ _ =>
      destruct (map2_ids_are_positions map2_session w) as [[W _] [M _]];
        [vm_compute; reflexivity|]
  end.
  split; [exact W|exact M].
Defined.


Lemma map4_session_runs :
  exists w, Map4UI.run Map4UI.empty_window map4_session = Done w.
Proof.
  unfold map4_session. cbn [Map4UI.run Map4UI.do_op obind].
  destruct (forward_geodesic_bounds 0 0 0 0) as (a & b & E & _).
  assert (E1 : exists d g,
            Map4UI.add_waypoint Map4UI.empty_window
              (Some (0, 0, 0, 0, 0, 0)%R)
              = Map4UI.mkWindow [d] [Map4UI.mkGraphic 0 g]).
  { unfold Map4UI.add_waypoint, Map4UI.add_waypoint_body. rewrite E.
    cbn [bind]. unfold Map4.latlon_to_local_xy, Map4.get_meters_per_deg,
      Map4UI.m_to_px. simpl. eauto. }
  destruct E1 as (d & g & ->).
  unfold Map4UI.drag.
  cbn [Map4UI.graphics Map4UI.waypoints_data nth_error Map4UI.move
       Map4UI.wp_id].
  unfold Map4UI.update_waypoint_coords, Map4UI.px_to_m.
  match goal with
  | |- context [Map4.local_xy_to_latlon ?o1 ?o2 ?x ?y] =>
      destruct (map4_local_xy_to_latlon_exact o1 o2 x y) as [_ G]; rewrite G
  end.
  - cbn [lift obind Map4UI.waypoints_data setitem]. eexists. reflexivity.
  - simpl. rewrite Rmult_0_l, cos_0. lra.
Qed.

Lemma map4_wp_id_indexes_the_records_witness :
  exists w,
    Map4UI.run Map4UI.empty_window map4_session = Done w /\
    map Map4UI.wp_id (Map4UI.graphics w)
      = seq 0 (length (Map4UI.waypoints_data w)).
Proof.
  destruct map4_session_runs as [w E]. exists w. split; [exact E|].
  exact (proj1 (map4_wp_id_indexes_the_records map4_session w E)).
Defined.

Lemma map4_conversions_are_inverse_witness :
  (let '(x, y) := Map4.latlon_to_local_xy 0%R 0%R 1%R 2%R in
   Map4.local_xy_to_latlon 0%R 0%R x y) = Ok (1, 2)%R.
Proof.
  apply (map4_conversions_are_inverse 0%R 0%R).
  simpl. rewrite Rmult_0_l, cos_0. lra.
Defined.

Lemma map4_records_stay_in_sync_witness :
  exists w,
    Map4UI.run Map4UI.empty_window map4_session = Done w /\
    Forall2 (in_sync (0, 0)%R) (Map4UI.waypoints_data w) (Map4UI.graphics w).
Proof.
  destruct map4_session_runs as [w E]. exists w. split; [exact E|].
  apply (map4_records_stay_in_sync (0, 0)%R map4_session w).
  - simpl. rewrite Rmult_0_l, cos_0. lra.
  - unfold map4_session. repeat constructor.
  - exact E.
Defined.

Lemma map6_session_runs :
  exists w, Map6UI.run Map6UI.empty_window map6_session = Ok w.
Proof.
  unfold map6_session. cbn [Map6UI.run Map6UI.do_op].
  unfold Map6UI.handle_map_double_click, Map6UI.new_item.
  destruct (coords_at_total (400, 720)%R) as (a1 & b1 & E1).
  destruct (coords_at_total (408, 700)%R) as (a2 & b2 & E2).
  destruct (coords_at_total (300, 300)%R) as (a3 & b3 & E3).
  cbn [Map6UI.panel Map6UI.empty_window Z.eqb fst snd].
  rewrite E1. cbn [bind Map6UI.switch_mode Map6UI.refresh_table_data
    Map6UI.panel Map6UI.elements Map6UI.waypoints Map6UI.next_uid Z.eqb].
  rewrite E2. cbn [bind Map6UI.refresh_table_data
    Map6UI.panel Map6UI.elements Map6UI.waypoints Map6UI.next_uid Z.eqb].
  rewrite E3. cbn [bind]. simpl. eexists. reflexivity.
Qed.

Lemma map6_labels_are_positions_witness :
  exists w,
    Map6UI.run Map6UI.empty_window map6_session = Ok w /\
    labelled "O" (Map6UI.elements w) /\ labelled "W" (Map6UI.waypoints w).
Proof.
  destruct map6_session_runs as [w E]. exists w. split; [exact E|].
  destruct (map6_labels_are_positions map6_session w E) as (L1 & L2 & _).
  exact (conj L1 L2).
Defined.

Lemma map6_delete_removes_the_selection_witness :
  exists w',
    Map6UI.delete_selected_item map6_window
      [Map6UI.mkMapItem 2 Map6UI.MissionElement (408, 700)%float
         (400, 700)%float 27.3756%float (-82.4525)%float "O2"] = Ok w' /\
    map Map6UI.uid (Map6UI.elements w') = [0%nat] /\
    map Map6UI.label (Map6UI.elements w') = ["O1"%string] /\
    map Map6UI.label (Map6UI.waypoints w') = ["W1"%string].
Proof.
  destruct (map6_delete_removes_the_selection map6_window
              [Map6UI.mkMapItem 2 Map6UI.MissionElement (408, 700)%float
                 (400, 700)%float 27.3756%float (-82.4525)%float "O2"])
    as (w' & E & Ee & Ew & _).
  - unfold distinct_objects, map6_window; simpl.
    repeat split; repeat constructor; simpl; intuition lia.
  - repeat constructor; simpl; tauto.
  - intros x [<-|[]]. simpl. tauto.
  - discriminate.
  - exists w'. split; [exact E|]. rewrite Ee, Ew. repeat split.
Defined.
End WindowInstances.
